(** * The GitLab importer of the [import] package

    A shallow embedding of [importers/gitlab/client.ts], of the second
    copy of that client module kept in the repository, and of
    [GitlabImporter.ts], together with the properties of the fetch and
    mapping pipeline.

    Strings are byte strings; every pattern the code searches for is
    ASCII, so searching bytes and searching UTF-16 code units agree. *)

From Stdlib Require Import String Ascii List ZArith Bool Lia DecimalString.
From Stdlib Require Import DecimalPos DecimalZ.
Import ListNotations.
Open Scope string_scope.

(** ** The fragment of JavaScript the importer relies on *)

Module JS.

(** Values that can flow through the mapping functions.  Besides strings
    and numbers these are the values reachable by reading a property of
    an object literal through its prototype chain: the built-in functions
    of [Object.prototype] and [Object.prototype] itself. *)
Inductive value : Type :=
| VUndefined
| VNum (n : Z)
| VStr (s : string)
| VBuiltin (name : string)
| VObjectPrototype.

Definition number_to_string (n : Z) : string :=
  NilZero.string_of_int (Z.to_int n).

(** ToBoolean. *)
Definition truthy (v : value) : bool :=
  match v with
  | VUndefined => false
  | VNum n => negb (n =? 0)%Z
  | VStr s => negb (s =? "")
  | VBuiltin _ => true
  | VObjectPrototype => true
  end.

(** [a || b]. *)
Definition or_else (a b : value) : value :=
  if truthy a then a else b.

(** [a === b]; functions and objects compare by identity. *)
Definition strict_equals (a b : value) : bool :=
  match a, b with
  | VUndefined, VUndefined => true
  | VNum n, VNum m => (n =? m)%Z
  | VStr s, VStr t => (s =? t)
  | VBuiltin f, VBuiltin g => (f =? g)
  | VObjectPrototype, VObjectPrototype => true
  | _, _ => false
  end.

(** ToPropertyKey: the string under which a value indexes an object.  A
    built-in function prints as V8 prints it. *)
Definition to_property_key (v : value) : string :=
  match v with
  | VUndefined => "undefined"
  | VNum n => number_to_string n
  | VStr s => s
  | VBuiltin name => "function " ++ name ++ "() { [native code] }"
  | VObjectPrototype => "[object Object]"
  end.

(** An object created by the literal [{}]: its own properties in
    insertion order; its prototype is [Object.prototype]. *)
Definition object : Type := list (string * value).

Definition empty_object : object := [].

(** [o[k] = v]: overwrite an own property or add it. *)
Fixpoint set {A : Type} (o : list (string * A)) (k : string) (v : A)
  : list (string * A) :=
  match o with
  | [] => [(k, v)]
  | (k', v') :: rest =>
      if k' =? k then (k, v) :: rest else (k', v') :: set rest k v
  end.

Fixpoint get_own {A : Type} (o : list (string * A)) (k : string) : option A :=
  match o with
  | [] => None
  | (k', v) :: rest => if k' =? k then Some v else get_own rest k
  end.

(** The properties every object literal inherits. *)
Definition object_prototype : list (string * value) :=
  [ ("constructor", VBuiltin "Object");
    ("__defineGetter__", VBuiltin "__defineGetter__");
    ("__defineSetter__", VBuiltin "__defineSetter__");
    ("hasOwnProperty", VBuiltin "hasOwnProperty");
    ("__lookupGetter__", VBuiltin "__lookupGetter__");
    ("__lookupSetter__", VBuiltin "__lookupSetter__");
    ("isPrototypeOf", VBuiltin "isPrototypeOf");
    ("propertyIsEnumerable", VBuiltin "propertyIsEnumerable");
    ("toString", VBuiltin "toString");
    ("valueOf", VBuiltin "valueOf");
    ("__proto__", VObjectPrototype);
    ("toLocaleString", VBuiltin "toLocaleString") ].

(** [o[k]]: own property first, then the prototype chain. *)
Definition get (o : object) (k : value) : value :=
  match get_own o (to_property_key k) with
  | Some v => v
  | None =>
      match get_own object_prototype (to_property_key k) with
      | Some v => v
      | None => VUndefined
      end
  end.

(** [Object.prototype.hasOwnProperty.call(o, k)] *)
Definition has_own_property (o : object) (k : value) : bool :=
  match get_own o (to_property_key k) with Some _ => true | None => false end.

Definition inherited (k : value) : bool :=
  match get_own object_prototype (to_property_key k) with
  | Some _ => true
  | None => false
  end.

(** [k in o]: own or inherited. *)
Definition has_property (o : object) (k : value) : bool :=
  has_own_property o k || inherited k.

(** [s.includes(pat)] *)
Fixpoint includes (pat s : string) : bool :=
  prefix pat s ||
  match s with
  | "" => false
  | String _ rest => includes pat rest
  end.

Fixpoint drop (n : nat) (s : string) : string :=
  match n, s with
  | S n', String _ rest => drop n' rest
  | _, _ => s
  end.

(** The text before and after the first occurrence of [pat] in [s]. *)
Fixpoint split_first (pat s : string) : option (string * string) :=
  if prefix pat s then Some ("", drop (String.length pat) s)
  else
    match s with
    | "" => None
    | String c rest =>
        match split_first pat rest with
        | Some (before, after) => Some (String c before, after)
        | None => None
        end
    end.

(** GetSubstitution for a string pattern (no capture groups): in the
    replacement text [$$] stands for a dollar sign, [$&] for the matched
    text, [$`] for the text before the match and [$'] for the text after
    it; any other dollar sign is literal. *)
Fixpoint get_substitution (matched before after repl : string) : string :=
  match repl with
  | "" => ""
  | String c rest =>
      if Ascii.eqb c "$" then
        match rest with
        | "" => "$"
        | String d rest' =>
            if Ascii.eqb d "$" then
              "$" ++ get_substitution matched before after rest'
            else if Ascii.eqb d "&" then
              matched ++ get_substitution matched before after rest'
            else if Ascii.eqb d "`" then
              before ++ get_substitution matched before after rest'
            else if Ascii.eqb d "'" then
              after ++ get_substitution matched before after rest'
            else String c (get_substitution matched before after rest)
        end
      else String c (get_substitution matched before after rest)
  end.

(** [s.replace(pat, repl)] with a string pattern: only the first
    occurrence is replaced. *)
Definition replace (s pat repl : string) : string :=
  match split_first pat s with
  | None => s
  | Some (before, after) =>
      before ++ get_substitution pat before after repl ++ after
  end.

(** [xs.indexOf(v, 0)] *)
Fixpoint indexOf (xs : list value) (v : value) : Z :=
  match xs with
  | [] => -1
  | x :: rest =>
      if strict_equals x v then 0
      else
        let i := indexOf rest v in
        if (i <? 0)%Z then -1 else (i + 1)%Z
  end.

(** [xs.splice(index, 1)] for an index within bounds: the array left
    behind. *)
Definition splice1 (xs : list value) (index : Z) : list value :=
  (firstn (Z.to_nat index) xs ++ skipn (S (Z.to_nat index)) xs)%list.

End JS.

Import JS.

Definition newline : string := String (ascii_of_nat 10) "".

(** ** Settled promises

    Every [await] in the importer is sequential, so a promise is modelled
    by the value it settles to. *)

Inductive error : Type :=
| Error (message : string)       (* [new Error(message)] *)
| TypeError (message : string).  (* raised by the engine *)

Definition message (e : error) : string :=
  match e with
  | Error m => m
  | TypeError m => m
  end.

Inductive result (A : Type) : Type :=
| Ok (a : A)
| Err (e : error).

Arguments Ok {A} a.
Arguments Err {A} e.

(** [p.then(f)] *)
Definition and_then {A B : Type} (p : result A) (f : A -> result B) : result B :=
  match p with
  | Ok a => f a
  | Err e => Err e
  end.

(** [p.catch(h)] *)
Definition catch {A : Type} (p : result A) (h : error -> result A) : result A :=
  match p with
  | Ok a => Ok a
  | Err e => h e
  end.

Notation "x <- p ;; k" := (and_then p (fun x => k))
  (at level 61, p at next level, right associativity).

(** [new Date(s)], kept symbolic. *)
Inductive Date : Type := new_Date (s : string).

(** ** The interfaces declared in GitlabImporter.ts *)

Module Assignee.
Record t : Type := {
  state : string;
  id : Z;
  name : string;
  web_url : string;
  avatar_url : string;
  username : string }.
End Assignee.

Module Note.
Record t : Type := {
  id : Z;
  system : bool;
  body : string;
  attachment : string;
  author_id : Z;      (* [author.id] *)
  created_at : string;
  updated_at : string }.
End Note.

(** The object built for every imported note. *)
Module Comment.
Record t : Type := {
  id : Z;
  body : string;
  userId : Z;
  createdAt : Date }.
End Comment.

Module GITLAB_ISSUE.
Record t : Type := {
  id : Z;
  iid : Z;
  title : string;
  description : string;
  labels : list string;
  assignees : list Assignee.t;
  due_date : option string;   (* [None] is JSON null *)
  severity : string;
  web_url : string;
  created_at : string;
  state : string;
  comments : list Comment.t }.

(** [issue.comments = cs] *)
Definition set_comments (issue : t) (cs : list Comment.t) : t :=
  {| id := id issue; iid := iid issue; title := title issue;
     description := description issue; labels := labels issue;
     assignees := assignees issue; due_date := due_date issue;
     severity := severity issue; web_url := web_url issue;
     created_at := created_at issue; state := state issue;
     comments := cs |}.
End GITLAB_ISSUE.

(** The entries of the project search, as the resolver reads them. *)
Module Project.
Record t : Type := { id : Z; path : string }.
End Project.

(** ** What [fetch] sees and answers *)

Record request : Type := {
  url : string;
  method : string;
  private_token : string }.

(** A response whose JSON body decodes to an [A]. *)
Record response (A : Type) : Type := {
  status : Z;
  json : A }.

Arguments status {A} r.
Arguments json {A} r.

(** ** client.ts *)

Module Client.

Definition GITLAB_API : string := "https://git.niice.nl/api/v4".

(** [gitlabClient(apiKey)(path, method)]: one request, classified by its
    status code.  No caller passes a body.  [fetch] gives the answers of
    the service: a status and the decoded body.  A request that gets no
    answer, or an answer whose body does not decode, ends the executor
    with an error as the three statuses below do; the callers treat any
    error of the executor alike. *)
Definition gitlabClient {A : Type} (fetch : request -> response A)
    (apiKey path method : string) : result A :=
  let response :=
    fetch {| url := GITLAB_API ++ "/" ++ path;
             method := method;
             private_token := apiKey |} in
  if (status response =? 401)%Z then Err (Error "Invalid API key")
  else if (status response =? 404)%Z then Err (Error "Not found")
  else if negb (status response =? 200)%Z then
    Err (Error ("Unexpected status code: " ++ number_to_string (status response)))
  else Ok (json response).

Section Resolver.

(** The text of the TypeError the engine raises when [undefined] is
    destructured; its wording depends on the engine. *)
Variable cannot_destructure : string.

(** The callback given to [then] in [getGitlabProjectId]. *)
Definition select_project (projectName : string) (projects : list Project.t)
  : result Z :=
  match find (fun project => Project.path project =? projectName) projects with
  | None => Err (TypeError cannot_destructure)
  | Some project =>
      let id := Project.id project in
      if negb (truthy (VNum id)) then
        Err (Error ("Project " ++ projectName ++ " not found"))
      else Ok id
  end.

Definition getGitlabProjectId (fetch : request -> response (list Project.t))
    (apiKey projectName : string) : result Z :=
  catch
    (projects <- gitlabClient fetch apiKey
                   ("projects?per_page=100&search=" ++ projectName) "GET" ;;
     select_project projectName projects)
    (fun error => Err (Error ("Failed to get project: " ++ message error))).

End Resolver.

(** The projection applied to every entry of the issue list; it sets no
    comments, the loop below does. *)
Definition project_issue (issue : GITLAB_ISSUE.t) : GITLAB_ISSUE.t :=
  GITLAB_ISSUE.set_comments issue [].

(** The callback given to [then] for the notes of one issue. *)
Definition comments_of_notes (projectName : string) (notes : list Note.t)
  : list Comment.t :=
  map (fun note =>
         let body :=
           replace (Note.body note) "/uploads/"
             ("https://git.niice.nl/niicedigitalmarketing/" ++ projectName
              ++ "/uploads/") in
         {| Comment.id := Note.id note;
            Comment.body := body;
            Comment.userId := Note.author_id note;
            Comment.createdAt := new_Date (Note.created_at note) |})
      (filter (fun note => negb (Note.system note)) notes).

Section Fetcher.

Variable fetch_issues : request -> response (list GITLAB_ISSUE.t).
Variable fetch_notes : request -> response (list Note.t).

Definition notes_path (projectId iid : Z) : string :=
  "/projects/" ++ number_to_string projectId ++ "/issues/"
  ++ number_to_string iid ++ "/notes?sort=asc&order_by=updated_at".

(** The comments fetched for one issue. *)
Definition fetch_comments (apiKey : string) (projectId : Z)
    (projectName : string) (issue : GITLAB_ISSUE.t) : result (list Comment.t) :=
  catch
    (notes <- gitlabClient fetch_notes apiKey
                (notes_path projectId (GITLAB_ISSUE.iid issue)) "GET" ;;
     Ok (comments_of_notes projectName notes))
    (fun error => Err (Error ("Failed to get issues: " ++ message error))).

(** The loop over the issues: one request after the other, the first
    failure ends the loop. *)
Fixpoint attach_comments (apiKey : string) (projectId : Z)
    (projectName : string) (issues : list GITLAB_ISSUE.t)
  : result (list GITLAB_ISSUE.t) :=
  match issues with
  | [] => Ok []
  | issue :: rest =>
      cs <- fetch_comments apiKey projectId projectName issue ;;
      rest' <- attach_comments apiKey projectId projectName rest ;;
      Ok (GITLAB_ISSUE.set_comments issue cs :: rest')
  end.

Definition issues_path (projectId : Z) : string :=
  "projects/" ++ number_to_string projectId ++ "/issues?state=opened".

Definition getGitlabIssuesFromRepo (apiKey : string) (projectId : Z)
    (projectName : string) : result (list GITLAB_ISSUE.t) :=
  issues <- catch
              (issueList <- gitlabClient fetch_issues apiKey
                              (issues_path projectId) "GET" ;;
               Ok (map project_issue issueList))
              (fun error =>
                 Err (Error ("Failed to get issues: " ++ message error))) ;;
  attach_comments apiKey projectId projectName issues.

End Fetcher.

(** The status table, filled in the order of the assignments. *)
Definition statuses : object :=
  let statuses := empty_object in
  let statuses := set statuses "Status::On hold" (VStr "Backlog") in
  let statuses := set statuses "Needs attention" (VStr "Backlog") in
  let statuses := set statuses "Status::Review" (VStr "Review") in
  let statuses := set statuses "Status::Estimate" (VStr "Estimate") in
  let statuses := set statuses "Status::Refinement" (VStr "Backlog") in
  let statuses := set statuses "Status::Ready for Release" (VStr "Done") in
  let statuses := set statuses "Status::Approved Internally" (VStr "Done") in
  let statuses := set statuses "Status::In progress" (VStr "In Progress") in
  let statuses := set statuses "Status::To-do" (VStr "Todo") in
  statuses.

(** The [return] inside the callback ends one call of the callback, not
    the [forEach]: every label is visited. *)
Definition mapStatusFromLabels (labels : list string) : value :=
  fold_left
    (fun newStatus label =>
       if has_property statuses (VStr label) then get statuses (VStr label)
       else newStatus)
    labels (VStr "backlog").

Definition priorityMap : object :=
  let priorityMap := empty_object in
  let priorityMap := set priorityMap "Prio :: Web" (VNum 0) in
  let priorityMap := set priorityMap "Prio :: 1" (VNum 2) in
  let priorityMap := set priorityMap "Prio :: 2" (VNum 3) in
  let priorityMap := set priorityMap "Prio :: 3" (VNum 4) in
  priorityMap.

Definition mapPriority (labels : list string) : value :=
  let matchedPrioLabel :=
    or_else
      match find (fun label => includes "Prio :: " label) labels with
      | Some label => VStr label
      | None => VUndefined
      end
      (VNum 0) in
  or_else (get priorityMap matchedPrioLabel) (VNum 0).

Definition removableLabels : list string :=
  [ "Prio :: Web"; "Prio :: 1"; "Prio :: 2"; "Prio :: 3";
    "Status::On hold"; "Status::Review"; "Status::Estimate";
    "Status::Ready for Release"; "Status::Approved Internally";
    "Status::In progress"; "Status::To-do";
    "Env :: Fieldpiece"; "Env :: My.Fieldpiece"; "Env :: University";
    "Env :: Brandportal" ].

Definition GitlabLabelsToLinearLabels : object :=
  let t := empty_object in
  let t := set t "Type::Bug" (VStr "Bug") in
  let t := set t "Type::Epic" (VStr "Epic") in
  let t := set t "Type::Feature" (VStr "Feature") in
  let t := set t "Type::Optimization" (VStr "Optimization") in
  let t := set t "Status::Refinement" (VStr "Refinement") in
  let t := set t "Frontend" (VStr "Front-end") in
  let t := set t "Backend" (VStr "Back-end") in
  t.

(** One turn of the first loop: the first occurrence of [removable], if
    there is one, is spliced out. *)
Definition remove_label (labels : list value) (removable : string)
  : list value :=
  let index := indexOf labels (VStr removable) in
  if (index >? -1)%Z then splice1 labels index else labels.

(** One turn of the second loop, at the element it visits. *)
Definition rename_label (label : value) : value :=
  if has_property GitlabLabelsToLinearLabels label
  then get GitlabLabelsToLinearLabels label
  else label.

(** The array is changed in place and returned, so its elements are
    values: a renamed element holds whatever the table lookup gave. *)
Definition mapLabels (labels : list value) : list value :=
  let labels := fold_left remove_label removableLabels labels in
  map rename_label labels.

Definition users : object :=
  let users := empty_object in
  let users := set users (to_property_key (VNum 2)) (VStr "floris@niice.nl") in
  let users := set users (to_property_key (VNum 20)) (VStr "jorn@niice.nl") in
  let users := set users (to_property_key (VNum 49)) (VStr "ken@niice.nl") in
  let users := set users (to_property_key (VNum 57)) (VStr "mik@niice.nl") in
  let users := set users (to_property_key (VNum 84)) (VStr "tim@niice.nl") in
  users.

Definition mapGitlabIdToEmail (id : Z) : value :=
  get users (VNum id).

End Client.

(** ** The second copy of the client module

    It repeats [gitlabClient], [getGitlabProjectId] and
    [getGitlabIssuesFromRepo] word for word; its status table is its own. *)

Module ClientCopy.

Definition statuses : object :=
  let statuses := empty_object in
  let statuses := set statuses "Status::On hold" (VStr "Todo") in
  let statuses := set statuses "Status::Review" (VStr "Review") in
  let statuses := set statuses "Status::Estimate" (VStr "Estimate") in
  let statuses := set statuses "Status::Refinement" (VStr "Todo") in
  let statuses := set statuses "Status::Ready for Release" (VStr "Done") in
  let statuses := set statuses "Status::Approved Internally" (VStr "Review") in
  let statuses := set statuses "Status::In progress" (VStr "In Progress") in
  let statuses := set statuses "Status::To-do" (VStr "Todo") in
  statuses.

Definition mapStatusFromLabels (labels : list string) : value :=
  fold_left
    (fun newStatus label =>
       if has_property statuses (VStr label) then get statuses (VStr label)
       else newStatus)
    labels (VStr "backlog").

End ClientCopy.

(** ** GitlabImporter.ts *)

Module GitlabImporter.

(** Modelled from the spec: the [ImportResult] type of [../../types] and
    the issue, label and user records it holds, with the fields the
    importer writes. *)
Module ImportedIssue.
Record t : Type := {
  title : string;
  description : string;
  url : string;
  labels : list value;
  createdAt : Date;
  dueDate : option Date;
  priority : value;
  status : value;
  comments : list Comment.t;
  assigneeId : value }.
End ImportedIssue.

Record label_record : Type := { label_name : value }.

Record user_record : Type := { name : string; avatarUrl : string }.

Module ImportResult.
Record t : Type := {
  issues : list ImportedIssue.t;
  labels : list (string * label_record);
  users : list (string * user_record) }.
End ImportResult.

Record GitLabImporter : Type := {
  accessToken : string;
  projectName : string }.

Definition constructor (projectId accessToken : string) : GitLabImporter :=
  {| projectName := projectId; accessToken := accessToken |}.

(** The text appended to every description. *)
Definition backlink (web_url : string) : string :=
  newline ++ newline ++ "[View original issue in Gitlab](" ++ web_url ++ ")".

(** The object pushed on [importData.issues]. *)
Definition imported_issue (issue : GITLAB_ISSUE.t) : ImportedIssue.t :=
  {| ImportedIssue.title := GITLAB_ISSUE.title issue;
     ImportedIssue.description :=
       GITLAB_ISSUE.description issue ++ backlink (GITLAB_ISSUE.web_url issue);
     ImportedIssue.url := GITLAB_ISSUE.web_url issue;
     ImportedIssue.labels :=
       Client.mapLabels (map VStr (GITLAB_ISSUE.labels issue));
     ImportedIssue.createdAt := new_Date (GITLAB_ISSUE.created_at issue);
     ImportedIssue.dueDate :=
       match GITLAB_ISSUE.due_date issue with
       | Some due => if truthy (VStr due) then Some (new_Date due) else None
       | None => None
       end;
     ImportedIssue.priority := Client.mapPriority (GITLAB_ISSUE.labels issue);
     ImportedIssue.status :=
       Client.mapStatusFromLabels (GITLAB_ISSUE.labels issue);
     ImportedIssue.comments := GITLAB_ISSUE.comments issue;
     ImportedIssue.assigneeId :=
       match GITLAB_ISSUE.assignees issue with
       | assignee :: _ => Client.mapGitlabIdToEmail (Assignee.id assignee)
       | [] => VUndefined
       end |}.

(** One turn of the loop over the fetched issues. *)
Definition add_issue (importData : ImportResult.t) (issue : GITLAB_ISSUE.t)
  : ImportResult.t :=
  {| ImportResult.issues :=
       (ImportResult.issues importData ++ [imported_issue issue])%list;
     ImportResult.users :=
       fold_left
         (fun users assignee =>
            set users (to_property_key (VNum (Assignee.id assignee)))
              {| name := Assignee.name assignee;
                 avatarUrl := Assignee.avatar_url assignee |})
         (GITLAB_ISSUE.assignees issue) (ImportResult.users importData);
     ImportResult.labels :=
       fold_left
         (fun labels label =>
            set labels (to_property_key label) {| label_name := label |})
         (Client.mapLabels (map VStr (GITLAB_ISSUE.labels issue)))
         (ImportResult.labels importData) |}.

Definition aggregate (issues : list GITLAB_ISSUE.t) : ImportResult.t :=
  fold_left add_issue issues
    {| ImportResult.issues := [];
       ImportResult.labels := [];
       ImportResult.users := [] |}.

Section Run.

Variable cannot_destructure : string.
Variable fetch_projects : request -> response (list Project.t).
Variable fetch_issues : request -> response (list GITLAB_ISSUE.t).
Variable fetch_notes : request -> response (list Note.t).

Definition import (this : GitLabImporter) : result ImportResult.t :=
  projectId <- Client.getGitlabProjectId cannot_destructure fetch_projects
                 (accessToken this) (projectName this) ;;
  issues <- Client.getGitlabIssuesFromRepo fetch_issues fetch_notes
              (accessToken this) projectId (projectName this) ;;
  Ok (aggregate issues).

End Run.

End GitlabImporter.

(** ** Vocabulary of the statements below *)

Section Vocabulary.

Import Client GitlabImporter.

(** The request [gitlabClient] hands to [fetch]. *)
Definition request_sent (apiKey path method : string) : request :=
  {| url := GITLAB_API ++ "/" ++ path;
     method := method;
     private_token := apiKey |}.

(** A search that answers 200 with the given entries. *)
Definition search_result (projects : list Project.t)
  : request -> response (list Project.t) :=
  fun _ => {| status := 200; json := projects |}.

(** The replacement text handed to [replace]. *)
Definition uploads_url (projectName : string) : string :=
  "https://git.niice.nl/niicedigitalmarketing/" ++ projectName ++ "/uploads/".

(** The answer to the notes request made for an issue. *)
Definition notes_answer (fetch_notes : request -> response (list Note.t))
    (apiKey : string) (projectId : Z) (issue : GITLAB_ISSUE.t)
  : response (list Note.t) :=
  fetch_notes
    (request_sent apiKey (notes_path projectId (GITLAB_ISSUE.iid issue)) "GET").

(** The answers to the first two requests of an import. *)
Definition search_answer (fetch_projects : request -> response (list Project.t))
    (this : GitLabImporter) : response (list Project.t) :=
  fetch_projects
    (request_sent (accessToken this)
       ("projects?per_page=100&search=" ++ projectName this) "GET").

Definition issues_answer (fetch_issues : request -> response (list GITLAB_ISSUE.t))
    (this : GitLabImporter) (projectId : Z) : response (list GITLAB_ISSUE.t) :=
  fetch_issues (request_sent (accessToken this) (issues_path projectId) "GET").

(** What a turn of the first loop does, without indices. *)
Fixpoint remove_first (v : value) (xs : list value) : list value :=
  match xs with
  | [] => []
  | x :: rest => if strict_equals x v then rest else x :: remove_first v rest
  end.

(** How often [v] occurs in [xs]. *)
Definition occurrences (v : value) (xs : list value) : nat :=
  List.length (filter (fun x => strict_equals x v) xs).

(** The first loop, for any list of labels to remove. *)
Definition strip (rs : list string) (xs : list value) : list value :=
  fold_left remove_label rs xs.

(** A value that neither loop of [mapLabels] touches. *)
Definition settled (v : value) : bool :=
  negb (existsb (fun r => strict_equals v (VStr r)) removableLabels)
  && negb (has_property GitlabLabelsToLinearLabels v).

(** A service that answers every request with the same status and body. *)
Definition answering {A : Type} (code : Z) (body : A) : request -> response A :=
  fun _ => {| status := code; json := body |}.

(** A note written by a person, with the given body. *)
Definition user_note (body : string) : Note.t :=
  {| Note.id := 1; Note.system := false; Note.body := body;
     Note.attachment := ""; Note.author_id := 2;
     Note.created_at := "2021-03-01T10:00:00.000Z";
     Note.updated_at := "2021-03-01T10:00:00.000Z" |}.

Definition sample_issue : GITLAB_ISSUE.t :=
  {| GITLAB_ISSUE.id := 40; GITLAB_ISSUE.iid := 4;
     GITLAB_ISSUE.title := "Upload fails";
     GITLAB_ISSUE.description := "";
     GITLAB_ISSUE.labels := ["Type::Bug"; "Status::To-do"; "Prio :: 2"];
     GITLAB_ISSUE.assignees := [];
     GITLAB_ISSUE.due_date := None;
     GITLAB_ISSUE.severity := "UNKNOWN";
     GITLAB_ISSUE.web_url :=
       "https://git.niice.nl/niicedigitalmarketing/web/-/issues/4";
     GITLAB_ISSUE.created_at := "2021-03-01T10:00:00.000Z";
     GITLAB_ISSUE.state := "opened";
     GITLAB_ISSUE.comments := [] |}.

Definition system_note : Note.t :=
  {| Note.id := 8; Note.system := true; Note.body := "changed the description";
     Note.attachment := ""; Note.author_id := 2;
     Note.created_at := "2021-03-01T09:00:00.000Z";
     Note.updated_at := "2021-03-01T09:00:00.000Z" |}.

(** What the fetcher returns for [sample_issue] when its notes are
    [system_note] and a note of a person. *)
Definition sample_comment : Comment.t :=
  {| Comment.id := 1;
     Comment.body :=
       "see https://git.niice.nl/niicedigitalmarketing/web/uploads/1/a.png";
     Comment.userId := 2;
     Comment.createdAt := new_Date "2021-03-01T10:00:00.000Z" |}.

Definition sample_fetched : GITLAB_ISSUE.t :=
  GITLAB_ISSUE.set_comments sample_issue [sample_comment].

(** Whether a label is one of the removable labels. *)
Definition removable_label (l : string) : bool :=
  existsb (String.eqb l) removableLabels.

(** A fetched issue with the comments of its own notes. *)
Definition with_comments (fetch_notes : request -> response (list Note.t))
    (apiKey : string) (projectId : Z) (projectName : string)
    (issue : GITLAB_ISSUE.t) : GITLAB_ISSUE.t :=
  GITLAB_ISSUE.set_comments issue
    (comments_of_notes projectName
       (json (notes_answer fetch_notes apiKey projectId issue))).

(** The assignees of all issues, in the order the aggregator visits them. *)
Definition all_assignees (issues : list GITLAB_ISSUE.t) : list Assignee.t :=
  flat_map GITLAB_ISSUE.assignees issues.

(** The normalized labels of all issues, in the order the aggregator
    visits them. *)
Definition all_labels (issues : list GITLAB_ISSUE.t) : list value :=
  flat_map (fun issue => mapLabels (map VStr (GITLAB_ISSUE.labels issue)))
    issues.

(** An assignee with the given id and name. *)
Definition assignee_named (id : Z) (name : string) : Assignee.t :=
  {| Assignee.state := "active"; Assignee.id := id; Assignee.name := name;
     Assignee.web_url := ""; Assignee.avatar_url := ""; Assignee.username := name |}.

(** [sample_issue], assigned to the given users. *)
Definition assigned_to (assignees : list Assignee.t) : GITLAB_ISSUE.t :=
  {| GITLAB_ISSUE.id := 40; GITLAB_ISSUE.iid := 4;
     GITLAB_ISSUE.title := "Upload fails";
     GITLAB_ISSUE.description := "";
     GITLAB_ISSUE.labels := ["Type::Bug"; "Status::To-do"; "Prio :: 2"];
     GITLAB_ISSUE.assignees := assignees;
     GITLAB_ISSUE.due_date := None;
     GITLAB_ISSUE.severity := "UNKNOWN";
     GITLAB_ISSUE.web_url :=
       "https://git.niice.nl/niicedigitalmarketing/web/-/issues/4";
     GITLAB_ISSUE.created_at := "2021-03-01T10:00:00.000Z";
     GITLAB_ISSUE.state := "opened";
     GITLAB_ISSUE.comments := [] |}.

End Vocabulary.

(** * Properties *)

(** ** Strings *)

Section StringFacts.

Lemma append_assoc (s t u : string) : (s ++ t) ++ u = s ++ t ++ u.
Proof. induction s; simpl; [reflexivity | now f_equal]. Qed.

Lemma length_append (s t : string) :
  String.length (s ++ t) = (String.length s + String.length t)%nat.
Proof. induction s; simpl; [reflexivity | now f_equal]. Qed.

Lemma prefix_app (p s : string) :
  prefix p s = true <-> exists post, s = p ++ post.
Proof.
  revert s; induction p as [|c p IH]; intros s; simpl.
  - split; [intros _; now exists s | intros _; now destruct s].
  - destruct s as [|d s]; simpl.
    + split; [discriminate | intros [post H]; discriminate].
    + destruct (ascii_dec c d) as [->|Hcd].
      * rewrite IH. split; intros [post H]; exists post.
        -- now rewrite H.
        -- now injection H.
      * split; [discriminate | intros [post H]; injection H; congruence].
Qed.

Lemma drop_app (p post : string) : drop (String.length p) (p ++ post) = post.
Proof. induction p; simpl; [now destruct post | assumption]. Qed.

(** [includes] is the substring test. *)
Lemma includes_spec (p s : string) :
  includes p s = true <-> exists pre post, s = pre ++ p ++ post.
Proof.
  induction s as [|c s IH].
  - cbn [includes]. rewrite orb_false_r, prefix_app. split.
    + intros [post H]. now exists "", post.
    + intros [pre [post H]]. destruct pre; [now exists post | discriminate].
  - cbn [includes]. rewrite orb_true_iff, prefix_app, IH. split.
    + intros [[post H] | [pre [post H]]].
      * now exists "", post.
      * exists (String c pre), post. simpl. now rewrite H.
    + intros [pre [post H]]. destruct pre as [|d pre]; simpl in H.
      * left. now exists post.
      * right. exists pre, post. now injection H.
Qed.

Lemma split_first_None (p s : string) :
  split_first p s = None <-> includes p s = false.
Proof.
  induction s as [|c s IH]; cbn [split_first includes].
  - destruct (prefix p ""); simpl; split; intros; congruence.
  - destruct (prefix p (String c s)); simpl.
    + split; discriminate.
    + rewrite <- IH. destruct (split_first p s) as [[b a]|];
        split; intros; congruence.
Qed.

(** [split_first] cuts at the first occurrence. *)
Lemma split_first_Some (p s before after : string) :
  split_first p s = Some (before, after) ->
  s = before ++ p ++ after /\
  forall before' after',
    s = before' ++ p ++ after' ->
    (String.length before <= String.length before')%nat.
Proof.
  revert before; induction s as [|c s IH]; intros before; cbn [split_first].
  - destruct (prefix p "") eqn:Hp; [|discriminate].
    intros [= <- <-]. apply prefix_app in Hp as [post Hp].
    split; [|simpl; lia].
    simpl. rewrite Hp at 2. now rewrite drop_app.
  - destruct (prefix p (String c s)) eqn:Hp.
    + intros [= <- <-]. apply prefix_app in Hp as [post Hp].
      split; [|simpl; lia].
      simpl. rewrite Hp at 2. now rewrite drop_app.
    + destruct (split_first p s) as [[b a]|] eqn:Hs; [|discriminate].
      intros [= <- <-]. destruct (IH b eq_refl) as [Heq Hmin]. split.
      * simpl. now rewrite <- Heq.
      * intros [|d b'] a' H; simpl in H.
        -- assert (prefix p (String c s) = true)
             by (apply prefix_app; now exists a').
           congruence.
        -- injection H as _ H. simpl. apply le_n_S. now apply (Hmin b' a').
Qed.

(** A replacement text without a dollar sign is inserted as it is. *)
Lemma get_substitution_plain (matched before after repl : string) :
  includes "$" repl = false ->
  get_substitution matched before after repl = repl.
Proof.
  induction repl as [|c repl IH]; [reflexivity|].
  cbn [includes]. intros H. apply orb_false_iff in H as [Hc Hrest].
  cbn [get_substitution].
  destruct (Ascii.eqb c "$") eqn:E.
  - apply Ascii.eqb_eq in E as ->.
    assert (prefix "$" (String "$" repl) = true)
      by (apply prefix_app; now exists repl).
    congruence.
  - now rewrite IH.
Qed.

Lemma includes_app_false (p s t : string) :
  includes p (s ++ t) = false -> includes p s = false /\ includes p t = false.
Proof.
  intros H. split.
  - destruct (includes p s) eqn:E; [|reflexivity].
    apply includes_spec in E as [pre [post E]].
    assert (includes p (s ++ t) = true); [|congruence].
    apply includes_spec. exists pre, (post ++ t). rewrite E.
    now rewrite !append_assoc.
  - destruct (includes p t) eqn:E; [|reflexivity].
    apply includes_spec in E as [pre [post E]].
    assert (includes p (s ++ t) = true); [|congruence].
    apply includes_spec. exists (s ++ pre), post. rewrite E.
    now rewrite !append_assoc.
Qed.

End StringFacts.

(** ** Values and objects *)

Section ObjectFacts.

Lemma strict_equals_spec (a b : value) : strict_equals a b = true <-> a = b.
Proof.
  destruct a, b; simpl; split; try discriminate; try reflexivity;
    try (intros H; apply Z.eqb_eq in H; now subst);
    try (intros H; apply String.eqb_eq in H; now subst);
    try (intros [= ->]; apply Z.eqb_refl);
    try (intros [= ->]; apply String.eqb_refl).
Qed.

Lemma strict_equals_refl (a : value) : strict_equals a a = true.
Proof. now apply strict_equals_spec. Qed.

Lemma get_own_In {A : Type} (o : list (string * A)) (k : string) (v : A) :
  get_own o k = Some v -> In (k, v) o.
Proof.
  induction o as [|[k' v'] o IH]; simpl; [discriminate|].
  destruct (String.eqb_spec k' k) as [->|Hk].
  - intros [= ->]. now left.
  - intros H. right. now apply IH.
Qed.

(** No inherited property name contains the priority marker. *)
Lemma prio_label_not_inherited (l : string) :
  includes "Prio :: " l = true -> get_own object_prototype l = None.
Proof.
  intros Hl. destruct (get_own object_prototype l) as [v|] eqn:E; [|reflexivity].
  apply get_own_In in E. simpl in E.
  repeat (destruct E as [E|E];
          [injection E as <- _; vm_compute in Hl; discriminate|]).
  contradiction.
Qed.

End ObjectFacts.

(** ** Lists *)

Section ListFacts.

Context {A : Type}.

Lemma find_first (f : A -> bool) (before after : list A) (x : A) :
  (forall y, In y before -> f y = false) ->
  f x = true ->
  find f (before ++ x :: after) = Some x.
Proof.
  intros Hb Hx. induction before as [|y before IH]; simpl.
  - now rewrite Hx.
  - rewrite (Hb y (or_introl eq_refl)). apply IH.
    intros z Hz. apply Hb. now right.
Qed.

Lemma find_absent (f : A -> bool) (xs : list A) :
  (forall y, In y xs -> f y = false) -> find f xs = None.
Proof.
  induction xs as [|y xs IH]; intros H; simpl; [reflexivity|].
  rewrite (H y (or_introl eq_refl)). apply IH.
  intros z Hz. apply H. now right.
Qed.

End ListFacts.

(** ** The status scan, for any table *)

Section StatusScan.

Variable table : object.

Lemma scan_no_match (labels : list string) (init : value) :
  (forall x, In x labels -> has_property table (VStr x) = false) ->
  fold_left
    (fun newStatus label =>
       if has_property table (VStr label) then get table (VStr label)
       else newStatus)
    labels init = init.
Proof.
  revert init; induction labels as [|x labels IH]; intros init H; simpl.
  - reflexivity.
  - rewrite (H x (or_introl eq_refl)).
    apply IH. intros y Hy. apply H. now right.
Qed.

(** The last label for which [in] holds decides the result. *)
Lemma scan_last_match (before after : list string) (l : string) (init : value) :
  has_property table (VStr l) = true ->
  (forall x, In x after -> has_property table (VStr x) = false) ->
  fold_left
    (fun newStatus label =>
       if has_property table (VStr label) then get table (VStr label)
       else newStatus)
    (before ++ l :: after) init = get table (VStr l).
Proof.
  intros Hl Hafter. rewrite fold_left_app. simpl.
  rewrite Hl. now apply scan_no_match.
Qed.

End StatusScan.

(** ** Status derivation *)

Section Status.

Import Client.

(** With no label for which [in] holds the default is returned. *)
Lemma mapStatusFromLabels_default (labels : list string) :
  (forall x, In x labels -> has_property statuses (VStr x) = false) ->
  mapStatusFromLabels labels = VStr "backlog".
Proof. intros H. unfold mapStatusFromLabels. now apply scan_no_match. Qed.

(** The default is none of the statuses of the table. *)
Lemma default_status_not_in_table (k : string) (v : value) :
  In (k, v) statuses -> v <> VStr "backlog".
Proof.
  simpl. intros H.
  repeat (destruct H as [H|H]; [injection H as _ <-; discriminate|]).
  contradiction.
Qed.

(** Among labels none of which is an inherited property name, the last
    key of the table wins. *)
Lemma mapStatusFromLabels_last_marker (before after : list string) (l : string) :
  has_own_property statuses (VStr l) = true ->
  (forall x, In x after ->
     has_own_property statuses (VStr x) = false /\ inherited (VStr x) = false) ->
  mapStatusFromLabels (before ++ l :: after) = get statuses (VStr l).
Proof.
  intros Hl Hafter. unfold mapStatusFromLabels. apply scan_last_match.
  - unfold has_property. now rewrite Hl.
  - intros x Hx. unfold has_property.
    destruct (Hafter x Hx) as [-> ->]. reflexivity.
Qed.

(** C1, at the input on which the code leaves the claim: the two status
    markers are followed by a label that names a property every object
    inherits; [in] accepts it and the scan returns the built-in function
    stored under that name instead of the status of the last marker. *)
Theorem mapStatusFromLabels_inherited_name_wins :
  mapStatusFromLabels ["Status::Review"; "Status::To-do"; "toString"]
    = VBuiltin "toString" /\
  has_own_property statuses (VStr "toString") = false /\
  get statuses (VStr "Status::To-do") = VStr "Todo" /\
  mapStatusFromLabels ["Status::Review"; "Status::To-do"] = VStr "Todo" /\
  mapStatusFromLabels ["Status::To-do"; "Status::Review"] = VStr "Review".
Proof. repeat split; reflexivity. Qed.

(** C10, at the input on which the code leaves the claim: a label list
    without any key of the status table, whose only label names an
    inherited property; the result is a built-in function, not the
    default ["backlog"]. *)
Theorem mapStatusFromLabels_default_lost :
  has_own_property statuses (VStr "constructor") = false /\
  mapStatusFromLabels ["constructor"] = VBuiltin "Object" /\
  mapStatusFromLabels ["constructor"] <> VStr "backlog" /\
  mapStatusFromLabels ["Type::Bug"] = VStr "backlog" /\
  mapStatusFromLabels ["Status::On hold"] = VStr "Backlog".
Proof. repeat split; try reflexivity. discriminate. Qed.

(** C4: the two copies of the status derivation disagree, for instance on
    an issue that is on hold and on one that is approved internally. *)
Theorem status_tables_diverge :
  Client.mapStatusFromLabels ["Status::On hold"] = VStr "Backlog" /\
  ClientCopy.mapStatusFromLabels ["Status::On hold"] = VStr "Todo" /\
  Client.mapStatusFromLabels ["Status::Approved Internally"] = VStr "Done" /\
  ClientCopy.mapStatusFromLabels ["Status::Approved Internally"] = VStr "Review" /\
  exists labels : list string,
    Client.mapStatusFromLabels labels <> ClientCopy.mapStatusFromLabels labels.
Proof.
  repeat split; try reflexivity.
  exists ["Status::On hold"]. discriminate.
Qed.

End Status.

(** ** Priority derivation *)

Section Priority.

Import Client.

Lemma priorityMap_entries :
  priorityMap =
    [ ("Prio :: Web", VNum 0); ("Prio :: 1", VNum 2);
      ("Prio :: 2", VNum 3); ("Prio :: 3", VNum 4) ].
Proof. reflexivity. Qed.

Lemma mapPriority_of_match (labels : list string) (l : string) :
  find (fun label => includes "Prio :: " label) labels = Some l ->
  mapPriority labels =
    VNum (if l =? "Prio :: Web" then 0
          else if l =? "Prio :: 1" then 2
          else if l =? "Prio :: 2" then 3
          else if l =? "Prio :: 3" then 4
          else 0).
Proof.
  intros Hfind. pose proof (find_some _ _ Hfind) as [_ Hl].
  unfold mapPriority. rewrite Hfind.
  assert (Ht : truthy (VStr l) = true).
  { destruct l; [vm_compute in Hl; discriminate | reflexivity]. }
  unfold or_else at 2. rewrite Ht.
  unfold get. cbn [to_property_key]. rewrite (prio_label_not_inherited l Hl).
  rewrite priorityMap_entries. cbn [get_own].
  rewrite !(String.eqb_sym _ l).
  destruct (l =? "Prio :: Web"); [reflexivity|].
  destruct (l =? "Prio :: 1"); [reflexivity|].
  destruct (l =? "Prio :: 2"); [reflexivity|].
  destruct (l =? "Prio :: 3"); reflexivity.
Qed.

(** C5: the first label that contains ["Prio :: "] is looked up; without
    such a label the priority is 0, the four known markers have the ranks
    0, 2, 3 and 4, and any other label containing the marker gives 0. *)
Theorem mapPriority_spec (labels : list string) :
  ((forall x, In x labels -> includes "Prio :: " x = false) ->
   mapPriority labels = VNum 0) /\
  (forall (before after : list string) (l : string),
     labels = (before ++ l :: after)%list ->
     (forall x, In x before -> includes "Prio :: " x = false) ->
     includes "Prio :: " l = true ->
     mapPriority labels =
       VNum (if l =? "Prio :: Web" then 0
             else if l =? "Prio :: 1" then 2
             else if l =? "Prio :: 2" then 3
             else if l =? "Prio :: 3" then 4
             else 0)).
Proof.
  split.
  - intros H. unfold mapPriority.
    rewrite (find_absent (fun label => includes "Prio :: " label) labels H).
    reflexivity.
  - intros before after l -> Hbefore Hl.
    apply mapPriority_of_match.
    now apply (find_first (fun label => includes "Prio :: " label)).
Qed.

Lemma mapPriority_spec_witness :
  mapPriority ["Type::Bug"] = VNum 0 /\
  mapPriority ["Type::Bug"; "Prio :: 2"; "Prio :: 1"] = VNum 3 /\
  mapPriority ["Prio :: Urgent"; "Prio :: 1"] = VNum 0.
Proof.
  split; [|split].
  - apply (proj1 (mapPriority_spec ["Type::Bug"])).
    intros x [<-|[]]. reflexivity.
  - apply (proj2 (mapPriority_spec ["Type::Bug"; "Prio :: 2"; "Prio :: 1"])
             ["Type::Bug"] ["Prio :: 1"] "Prio :: 2" eq_refl).
    + intros x [<-|[]]. reflexivity.
    + reflexivity.
  - apply (proj2 (mapPriority_spec ["Prio :: Urgent"; "Prio :: 1"])
             [] ["Prio :: 1"] "Prio :: Urgent" eq_refl).
    + intros x [].
    + reflexivity.
Defined.

End Priority.

(** ** Label normalization *)

Section Labels.

Import Client.



Lemma indexOf_lower_bound (xs : list value) (v : value) :
  (-1 <= indexOf xs v)%Z.
Proof.
  induction xs as [|x xs IH]; simpl; [lia|].
  destruct (strict_equals x v); [lia|].
  destruct (indexOf xs v <? 0)%Z eqn:E; lia.
Qed.

Lemma remove_label_remove_first (xs : list value) (r : string) :
  remove_label xs r = remove_first (VStr r) xs.
Proof.
  unfold remove_label. induction xs as [|x xs IH]; simpl; [reflexivity|].
  destruct (strict_equals x (VStr r)); [reflexivity|].
  pose proof (indexOf_lower_bound xs (VStr r)) as Hlow.
  destruct (indexOf xs (VStr r) <? 0)%Z eqn:E.
  - apply Z.ltb_lt in E.
    replace (indexOf xs (VStr r)) with (-1)%Z in IH by lia.
    simpl in IH. simpl. now rewrite <- IH.
  - apply Z.ltb_ge in E.
    assert (Hgt : (indexOf xs (VStr r) >? -1)%Z = true)
      by (apply Z.gtb_lt; lia).
    rewrite Hgt in IH.
    assert (Hgt' : (indexOf xs (VStr r) + 1 >? -1)%Z = true)
      by (apply Z.gtb_lt; lia).
    rewrite Hgt'. unfold splice1 in *.
    replace (Z.to_nat (indexOf xs (VStr r) + 1))
      with (S (Z.to_nat (indexOf xs (VStr r)))) by lia.
    simpl. simpl in IH. now rewrite IH.
Qed.

Lemma remove_first_absent (v : value) (xs : list value) :
  occurrences v xs = 0%nat -> remove_first v xs = xs.
Proof.
  unfold occurrences. induction xs as [|x xs IH]; simpl; [reflexivity|].
  destruct (strict_equals x v); simpl; [discriminate|].
  intros H. now rewrite IH.
Qed.

Lemma remove_first_same (v : value) (xs : list value) :
  occurrences v (remove_first v xs) = Nat.pred (occurrences v xs).
Proof.
  unfold occurrences. induction xs as [|x xs IH]; simpl; [reflexivity|].
  destruct (strict_equals x v) eqn:E; simpl; [reflexivity|].
  now rewrite E.
Qed.

Lemma remove_first_other (v w : value) (xs : list value) :
  v <> w -> occurrences w (remove_first v xs) = occurrences w xs.
Proof.
  intros Hvw. unfold occurrences.
  induction xs as [|x xs IH]; simpl; [reflexivity|].
  destruct (strict_equals x v) eqn:E; simpl.
  - apply strict_equals_spec in E as ->.
    destruct (strict_equals v w) eqn:E'; [|reflexivity].
    apply strict_equals_spec in E'. contradiction.
  - destruct (strict_equals x w); simpl; now rewrite IH.
Qed.

Lemma remove_first_incl (v x : value) (xs : list value) :
  In x (remove_first v xs) -> In x xs.
Proof.
  induction xs as [|y xs IH]; simpl; [tauto|].
  destruct (strict_equals y v); simpl; [tauto|].
  intros [H|H]; [now left | right; now apply IH].
Qed.


Lemma strip_incl (rs : list string) (xs : list value) (x : value) :
  In x (strip rs xs) -> In x xs.
Proof.
  unfold strip. revert xs; induction rs as [|r rs IH]; intros xs; simpl.
  - tauto.
  - intros H. apply IH in H. rewrite remove_label_remove_first in H.
    now apply remove_first_incl in H.
Qed.

Lemma strip_other (rs : list string) (xs : list value) (w : value) :
  (forall r, In r rs -> VStr r <> w) ->
  occurrences w (strip rs xs) = occurrences w xs.
Proof.
  unfold strip. revert xs; induction rs as [|r rs IH]; intros xs H; simpl.
  - reflexivity.
  - rewrite IH by (intros r' Hr'; apply H; now right).
    rewrite remove_label_remove_first.
    apply remove_first_other. apply H. now left.
Qed.

Lemma strip_removed (rs : list string) (xs : list value) (r : string) :
  NoDup rs -> In r rs ->
  occurrences (VStr r) (strip rs xs) = Nat.pred (occurrences (VStr r) xs).
Proof.
  unfold strip. intros Hnd. revert xs.
  induction Hnd as [|r0 rs Hnotin Hnd IH]; intros xs Hin; simpl.
  - destruct Hin.
  - destruct Hin as [->|Hin].
    + fold (strip rs (remove_label xs r)).
      rewrite strip_other.
      * rewrite remove_label_remove_first. apply remove_first_same.
      * intros r' Hr' [= ->]. contradiction.
    + rewrite IH by assumption. f_equal.
      rewrite remove_label_remove_first. apply remove_first_other.
      intros [= ->]. contradiction.
Qed.

Lemma strip_fixed (rs : list string) (xs : list value) :
  (forall r, In r rs -> occurrences (VStr r) xs = 0%nat) ->
  strip rs xs = xs.
Proof.
  unfold strip. induction rs as [|r rs IH]; intros H; simpl; [reflexivity|].
  rewrite remove_label_remove_first.
  rewrite remove_first_absent by (apply H; now left).
  apply IH. intros r' Hr'. apply H. now right.
Qed.

Lemma occurrences_zero (v : value) (xs : list value) :
  occurrences v xs = 0%nat <-> forall x, In x xs -> strict_equals x v = false.
Proof.
  unfold occurrences. induction xs as [|y xs IH]; simpl.
  - split; [intros _ x [] | reflexivity].
  - destruct (strict_equals y v) eqn:E; simpl.
    + split; [discriminate|]. intros H.
      specialize (H y (or_introl eq_refl)). congruence.
    + rewrite IH. split.
      * intros H x [<-|Hx]; [assumption | now apply H].
      * intros H x Hx. apply H. now right.
Qed.

Lemma occurrences_map_VStr (r : string) (labels : list string) :
  occurrences (VStr r) (map VStr labels) = count_occ string_dec labels r.
Proof.
  unfold occurrences. induction labels as [|l labels IH]; simpl; [reflexivity|].
  destruct (string_dec l r) as [->|Hlr].
  - rewrite String.eqb_refl. simpl. now rewrite IH.
  - apply String.eqb_neq in Hlr. now rewrite Hlr.
Qed.

End Labels.

Section LabelsIdempotence.

Import Client.


Lemma get_of_property (o : object) (k : value) :
  has_property o k = true ->
  In (get o k) (map snd o ++ map snd object_prototype).
Proof.
  unfold has_property, has_own_property, inherited, get. intros H.
  apply in_or_app.
  destruct (get_own o (to_property_key k)) as [v|] eqn:Eo.
  - left. apply get_own_In in Eo. now apply (in_map snd) in Eo.
  - destruct (get_own object_prototype (to_property_key k)) as [v|] eqn:Ep.
    + right. apply get_own_In in Ep. now apply (in_map snd) in Ep.
    + discriminate.
Qed.

Lemma renamed_values_settled :
  forallb settled
    (map snd GitlabLabelsToLinearLabels ++ map snd object_prototype) = true.
Proof. vm_compute. reflexivity. Qed.

Lemma rename_label_settled (v : value) :
  (forall r, In r removableLabels -> strict_equals v (VStr r) = false) ->
  settled (rename_label v) = true.
Proof.
  intros Hv. unfold rename_label.
  destruct (has_property GitlabLabelsToLinearLabels v) eqn:E.
  - apply get_of_property in E.
    pose proof renamed_values_settled as H.
    rewrite forallb_forall in H. now apply H.
  - unfold settled. rewrite E. change (negb false) with true.
    rewrite andb_true_r. apply negb_true_iff.
    destruct (existsb (fun r => strict_equals v (VStr r)) removableLabels)
      eqn:Ex; [|reflexivity].
    apply existsb_exists in Ex as [r [Hr Hs]].
    rewrite (Hv r Hr) in Hs. discriminate.
Qed.

Lemma settled_not_removable (v : value) (r : string) :
  settled v = true -> In r removableLabels -> strict_equals v (VStr r) = false.
Proof.
  unfold settled. intros H Hr. apply andb_true_iff in H as [H _].
  apply negb_true_iff in H.
  destruct (strict_equals v (VStr r)) eqn:E; [|reflexivity].
  assert (existsb (fun r => strict_equals v (VStr r)) removableLabels = true)
    by (apply existsb_exists; now exists r).
  congruence.
Qed.

Lemma settled_not_renamed (v : value) :
  settled v = true -> rename_label v = v.
Proof.
  unfold settled, rename_label. intros H. apply andb_true_iff in H as [_ H].
  apply negb_true_iff in H. now rewrite H.
Qed.

Lemma mapLabels_strip_rename (xs : list value) :
  mapLabels xs = map rename_label (strip removableLabels xs).
Proof. unfold mapLabels, strip. reflexivity. Qed.

(** A list of settled values is a fixed point of [mapLabels]. *)
Lemma mapLabels_settled (xs : list value) :
  (forall x, In x xs -> settled x = true) -> mapLabels xs = xs.
Proof.
  intros H. rewrite mapLabels_strip_rename.
  rewrite (strip_fixed removableLabels xs).
  - transitivity (map (fun x : value => x) xs); [|apply map_id].
    apply map_ext_in.
    intros x Hx. apply settled_not_renamed. apply H. exact Hx.
  - intros r Hr. apply occurrences_zero.
    intros x Hx. apply settled_not_removable; [apply H; exact Hx | exact Hr].
Qed.

Lemma removableLabels_NoDup : NoDup removableLabels.
Proof.
  unfold removableLabels.
  repeat (constructor;
          [simpl; intros H;
           repeat (destruct H as [H|H]; [discriminate|]); contradiction|]).
  constructor.
Qed.

(** When no removable label is repeated, the result of [mapLabels] holds
    settled values only. *)
Lemma mapLabels_result_settled (xs : list value) :
  (forall r, In r removableLabels -> (occurrences (VStr r) xs <= 1)%nat) ->
  forall y, In y (mapLabels xs) -> settled y = true.
Proof.
  intros Hocc y Hy. rewrite mapLabels_strip_rename in Hy.
  apply in_map_iff in Hy as [x [<- Hx]].
  apply rename_label_settled. intros r Hr.
  pose proof (strip_removed removableLabels xs r removableLabels_NoDup Hr)
    as Hstrip.
  pose proof (Hocc r Hr) as Hle.
  assert (H0 : occurrences (VStr r) (strip removableLabels xs) = 0%nat).
  { rewrite Hstrip. destruct (occurrences (VStr r) xs) as [|[|n]].
    - reflexivity.
    - reflexivity.
    - exfalso. apply (Nat.nle_succ_0 n). apply le_S_n. exact Hle. }
  apply (proj1 (occurrences_zero (VStr r) (strip removableLabels xs)) H0).
  exact Hx.
Qed.

(** On a label list in which no removable label occurs more than once,
    and so on every list without repeated labels, a second [mapLabels]
    changes nothing. *)
Theorem mapLabels_idempotent (labels : list string) :
  (forall r, In r removableLabels -> (count_occ string_dec labels r <= 1)%nat) ->
  mapLabels (mapLabels (map VStr labels)) = mapLabels (map VStr labels).
Proof.
  intros H. apply mapLabels_settled. apply mapLabels_result_settled.
  intros r Hr. rewrite occurrences_map_VStr. now apply H.
Qed.

Lemma mapLabels_idempotent_witness :
  mapLabels (map VStr ["Type::Bug"; "Status::To-do"; "Prio :: 2"]) = [VStr "Bug"] /\
  mapLabels (mapLabels (map VStr ["Type::Bug"; "Status::To-do"; "Prio :: 2"]))
    = mapLabels (map VStr ["Type::Bug"; "Status::To-do"; "Prio :: 2"]).
Proof.
  split; [vm_compute; reflexivity|].
  apply (mapLabels_idempotent ["Type::Bug"; "Status::To-do"; "Prio :: 2"]).
  intros r Hr. simpl in Hr.
  repeat (destruct Hr as [<-|Hr]; [vm_compute; lia|]).
  destruct Hr.
Defined.

(** C2, at the input on which the code leaves the claim: a label list
    that holds a removable label twice.  Each call splices out the first
    occurrence only, so the result of one call still holds the label and
    a second call changes it. *)
Lemma mapLabels_not_idempotent :
  mapLabels (map VStr ["Prio :: 1"; "Prio :: 1"]) = [VStr "Prio :: 1"] /\
  mapLabels (mapLabels (map VStr ["Prio :: 1"; "Prio :: 1"])) = [] /\
  mapLabels (mapLabels (map VStr ["Prio :: 1"; "Prio :: 1"]))
    <> mapLabels (map VStr ["Prio :: 1"; "Prio :: 1"]).
Proof.
  split; [|split].
  - vm_compute. reflexivity.
  - vm_compute. reflexivity.
  - vm_compute. discriminate.
Qed.

End LabelsIdempotence.

(** ** The request executor *)

Section Executor.

Import Client.

Context {A : Type}.
Variable fetch : request -> response A.
Variables apiKey path method : string.

Lemma gitlabClient_401 :
  status (fetch (request_sent apiKey path method)) = 401%Z ->
  gitlabClient fetch apiKey path method = Err (Error "Invalid API key").
Proof.
  unfold gitlabClient. fold (request_sent apiKey path method).
  intros ->. reflexivity.
Qed.

Lemma gitlabClient_404 :
  status (fetch (request_sent apiKey path method)) = 404%Z ->
  gitlabClient fetch apiKey path method = Err (Error "Not found").
Proof.
  unfold gitlabClient. fold (request_sent apiKey path method).
  intros ->. reflexivity.
Qed.

Lemma gitlabClient_unexpected (code : Z) :
  status (fetch (request_sent apiKey path method)) = code ->
  code <> 401%Z -> code <> 404%Z -> code <> 200%Z ->
  gitlabClient fetch apiKey path method
    = Err (Error ("Unexpected status code: " ++ number_to_string code)).
Proof.
  unfold gitlabClient. fold (request_sent apiKey path method).
  intros -> H401 H404 H200.
  apply Z.eqb_neq in H401, H404, H200. now rewrite H401, H404, H200.
Qed.

Lemma gitlabClient_200 :
  status (fetch (request_sent apiKey path method)) = 200%Z ->
  gitlabClient fetch apiKey path method
    = Ok (json (fetch (request_sent apiKey path method))).
Proof.
  unfold gitlabClient. fold (request_sent apiKey path method).
  intros ->. reflexivity.
Qed.

Lemma gitlabClient_Ok (a : A) :
  gitlabClient fetch apiKey path method = Ok a ->
  status (fetch (request_sent apiKey path method)) = 200%Z /\
  a = json (fetch (request_sent apiKey path method)).
Proof.
  unfold gitlabClient. fold (request_sent apiKey path method).
  destruct (fetch (request_sent apiKey path method)) as [code body]; simpl.
  destruct (Z.eqb_spec code 401); [discriminate|].
  destruct (Z.eqb_spec code 404); [discriminate|].
  destruct (Z.eqb_spec code 200); simpl; [|discriminate].
  intros [= <-]. now split.
Qed.

End Executor.

(** ** The project resolver *)

Section ResolverFacts.

Import Client.

Variable cannot_destructure : string.

(** A resolved id is the id of an entry whose path is the requested
    name; a path that merely contains the name is never selected. *)
Lemma select_project_exact (projectName : string) (projects : list Project.t)
    (id : Z) :
  select_project cannot_destructure projectName projects = Ok id ->
  exists project,
    In project projects /\ Project.path project = projectName /\
    Project.id project = id /\ id <> 0%Z.
Proof.
  unfold select_project.
  destruct (find _ projects) as [project|] eqn:Hfind; [|discriminate].
  apply find_some in Hfind as [Hin Hpath]. apply String.eqb_eq in Hpath.
  cbn [truthy]. destruct (Z.eqb_spec (Project.id project) 0); simpl.
  - discriminate.
  - intros [= <-]. now exists project.
Qed.

(** Without an entry of that path the callback does not reach its own
    check: destructuring the [undefined] that [find] returned throws. *)
Lemma select_project_no_match (projectName : string) (projects : list Project.t) :
  (forall project, In project projects -> Project.path project <> projectName) ->
  select_project cannot_destructure projectName projects
    = Err (TypeError cannot_destructure).
Proof.
  intros H. unfold select_project.
  rewrite (find_absent _ projects); [reflexivity|].
  intros project Hin. apply String.eqb_neq. now apply H.
Qed.

(** The resolver's own error is raised for a matching entry whose id is
    falsy, and only then. *)
Lemma select_project_not_found (projectName : string) (projects : list Project.t)
    (m : string) :
  select_project cannot_destructure projectName projects = Err (Error m) ->
  m = "Project " ++ projectName ++ " not found" /\
  exists project,
    In project projects /\ Project.path project = projectName /\
    Project.id project = 0%Z.
Proof.
  unfold select_project.
  destruct (find _ projects) as [project|] eqn:Hfind; [|discriminate].
  apply find_some in Hfind as [Hin Hpath]. apply String.eqb_eq in Hpath.
  cbn [truthy]. destruct (Z.eqb_spec (Project.id project) 0); simpl.
  - intros [= <-]. split; [reflexivity | now exists project].
  - discriminate.
Qed.

(** Without an entry of that path the resolver fails, whatever else the
    search returned. *)
Lemma getGitlabProjectId_fails_without_match
    (fetch : request -> response (list Project.t)) (apiKey projectName : string) :
  (forall project,
     In project
       (json (fetch (request_sent apiKey
                       ("projects?per_page=100&search=" ++ projectName) "GET"))) ->
     Project.path project <> projectName) ->
  exists m,
    getGitlabProjectId cannot_destructure fetch apiKey projectName
      = Err (Error m).
Proof.
  intros H. unfold getGitlabProjectId.
  destruct (gitlabClient fetch apiKey _ "GET") as [projects|e] eqn:E; simpl.
  - apply gitlabClient_Ok in E as [_ ->].
    rewrite (select_project_no_match _ _ H). simpl. eexists. reflexivity.
  - eexists. reflexivity.
Qed.

End ResolverFacts.

Section ResolverScenarios.

Import Client.


(** C3, at the input on which the code leaves the claim: the search
    returns only an entry whose path contains the name.  No entry is
    selected, but the failure is the engine's TypeError wrapped by the
    [catch], not the resolver's "not found" error.  With an exact entry
    next to it, that entry is selected. *)
Theorem getGitlabProjectId_no_exact_match (cannot_destructure apiKey : string) :
  select_project cannot_destructure "foo"
    [ {| Project.id := 7; Project.path := "bar-foo" |} ]
    = Err (TypeError cannot_destructure) /\
  getGitlabProjectId cannot_destructure
    (search_result [ {| Project.id := 7; Project.path := "bar-foo" |} ])
    apiKey "foo"
    = Err (Error ("Failed to get project: " ++ cannot_destructure)) /\
  getGitlabProjectId cannot_destructure
    (search_result [ {| Project.id := 7; Project.path := "bar-foo" |};
                     {| Project.id := 3; Project.path := "foo" |} ])
    apiKey "foo"
    = Ok 3%Z /\
  getGitlabProjectId cannot_destructure
    (search_result [ {| Project.id := 0; Project.path := "foo" |} ])
    apiKey "foo"
    = Err (Error "Failed to get project: Project foo not found").
Proof. repeat split; reflexivity. Qed.

End ResolverScenarios.

(** ** Comment bodies *)

Section CommentBodies.

Import Client.



Lemma includes_char_app (c : ascii) (s t : string) :
  includes (String c "") (s ++ t)
    = includes (String c "") s || includes (String c "") t.
Proof.
  induction s as [|d s IH].
  - simpl. destruct t; reflexivity.
  - cbn [append includes]. rewrite IH. rewrite orb_assoc. f_equal.
    simpl. destruct (ascii_dec c d); [|reflexivity].
    now destruct s, t.
Qed.

(** A body without an upload path is imported as it is. *)
Lemma body_without_upload_unchanged (body repl : string) :
  includes "/uploads/" body = false ->
  replace body "/uploads/" repl = body.
Proof.
  intros H. unfold replace.
  apply split_first_None in H. now rewrite H.
Qed.

(** In a body with an upload path the first one is given the project's
    URL, provided the project name holds no dollar sign; the text after
    it is kept as it is. *)
Lemma body_first_upload_rewritten (projectName body : string) :
  includes "$" projectName = false ->
  includes "/uploads/" body = true ->
  exists before after,
    body = before ++ "/uploads/" ++ after /\
    includes "/uploads/" (before ++ "/uploads") = false /\
    replace body "/uploads/" (uploads_url projectName)
      = before ++ uploads_url projectName ++ after.
Proof.
  intros Hname Hbody. unfold replace.
  destruct (split_first "/uploads/" body) as [[before after]|] eqn:E.
  - apply split_first_Some in E as [Heq Hmin].
    exists before, after. split; [exact Heq|]. split.
    + destruct (includes "/uploads/" (before ++ "/uploads")) eqn:Hin;
        [|reflexivity].
      apply includes_spec in Hin as [b' [a' Hin]].
      assert (Hlen : (String.length before <= String.length b')%nat).
      { apply (Hmin b' (a' ++ "/" ++ after)). rewrite Heq.
        change ("/uploads/" ++ after) with ("/uploads" ++ "/" ++ after).
        rewrite <- (append_assoc before "/uploads"). rewrite Hin.
        now rewrite !append_assoc. }
      apply (f_equal String.length) in Hin.
      rewrite !length_append in Hin. simpl in Hin. lia.
    + rewrite get_substitution_plain; [reflexivity|].
      unfold uploads_url. rewrite !includes_char_app, Hname. reflexivity.
  - apply split_first_None in E. congruence.
Qed.

(** C6, at the input on which the code leaves the claim: a note that
    links two uploads.  [replace] with a string pattern stops after the
    first occurrence, so the second path is imported as it was. *)
Theorem second_upload_path_not_rewritten :
  map Comment.body
    (comments_of_notes "web"
       [ user_note "![a](/uploads/1/a.png) ![b](/uploads/2/b.png)" ])
  = [ "![a](https://git.niice.nl/niicedigitalmarketing/web/uploads/1/a.png) ![b](/uploads/2/b.png)" ].
Proof. vm_compute. reflexivity. Qed.

(** A dollar pattern in the project name is expanded by [replace]. *)
Lemma dollar_in_project_name :
  map Comment.body
    (comments_of_notes "a$&b" [ user_note "see /uploads/1/a.png" ])
  = [ "see https://git.niice.nl/niicedigitalmarketing/a/uploads/b/uploads/1/a.png" ].
Proof. vm_compute. reflexivity. Qed.

End CommentBodies.

(** ** The issue fetcher *)

Section FetcherFacts.

Import Client.

Variable fetch_issues : request -> response (list GITLAB_ISSUE.t).
Variable fetch_notes : request -> response (list Note.t).
Variable apiKey : string.
Variable projectId : Z.
Variable projectName : string.


Lemma fetch_comments_200 (issue : GITLAB_ISSUE.t) :
  status (notes_answer fetch_notes apiKey projectId issue) = 200%Z ->
  fetch_comments fetch_notes apiKey projectId projectName issue
    = Ok (comments_of_notes projectName
            (json (notes_answer fetch_notes apiKey projectId issue))).
Proof.
  intros H. unfold fetch_comments.
  rewrite gitlabClient_200 by exact H. reflexivity.
Qed.

Lemma fetch_comments_401 (issue : GITLAB_ISSUE.t) :
  status (notes_answer fetch_notes apiKey projectId issue) = 401%Z ->
  fetch_comments fetch_notes apiKey projectId projectName issue
    = Err (Error "Failed to get issues: Invalid API key").
Proof.
  intros H. unfold fetch_comments.
  rewrite gitlabClient_401 by exact H. reflexivity.
Qed.

Lemma fetch_comments_Ok (issue : GITLAB_ISSUE.t) (cs : list Comment.t) :
  fetch_comments fetch_notes apiKey projectId projectName issue = Ok cs ->
  status (notes_answer fetch_notes apiKey projectId issue) = 200%Z /\
  cs = comments_of_notes projectName
         (json (notes_answer fetch_notes apiKey projectId issue)).
Proof.
  unfold fetch_comments.
  destruct (gitlabClient fetch_notes apiKey _ "GET") as [notes|e] eqn:E;
    simpl; [|discriminate].
  apply gitlabClient_Ok in E as [Hs ->]. intros [= <-]. now split.
Qed.

(** A finished loop has given every issue the comments of its own
    notes, in the order of the issues. *)
Lemma attach_comments_Ok (issues out : list GITLAB_ISSUE.t) :
  attach_comments fetch_notes apiKey projectId projectName issues = Ok out ->
  Forall2
    (fun issue issue' =>
       status (notes_answer fetch_notes apiKey projectId issue) = 200%Z /\
       issue' = GITLAB_ISSUE.set_comments issue
                  (comments_of_notes projectName
                     (json (notes_answer fetch_notes apiKey projectId issue))))
    issues out.
Proof.
  revert out; induction issues as [|issue issues IH]; intros out; simpl.
  - intros [= <-]. constructor.
  - destruct (fetch_comments _ _ _ _ issue) as [cs|e] eqn:E; simpl;
      [|discriminate].
    destruct (attach_comments _ _ _ _ issues) as [rest|e] eqn:E'; simpl;
      [|discriminate].
    intros [= <-]. apply fetch_comments_Ok in E as [Hs ->].
    constructor; [now split | now apply IH].
Qed.

(** The loop ends at the first issue whose notes cannot be fetched. *)
Lemma attach_comments_abort (before after : list GITLAB_ISSUE.t)
    (issue : GITLAB_ISSUE.t) (e : error) :
  (forall x, In x before ->
     status (notes_answer fetch_notes apiKey projectId x) = 200%Z) ->
  fetch_comments fetch_notes apiKey projectId projectName issue = Err e ->
  attach_comments fetch_notes apiKey projectId projectName
    (before ++ issue :: after) = Err e.
Proof.
  intros Hbefore Hissue. induction before as [|x before IH]; simpl.
  - now rewrite Hissue.
  - rewrite fetch_comments_200 by (apply Hbefore; now left). simpl.
    rewrite IH by (intros y Hy; apply Hbefore; now right). reflexivity.
Qed.

Lemma getGitlabIssuesFromRepo_Ok (out : list GITLAB_ISSUE.t) :
  getGitlabIssuesFromRepo fetch_issues fetch_notes apiKey projectId projectName
    = Ok out ->
  let listed := fetch_issues (request_sent apiKey (issues_path projectId) "GET") in
  status listed = 200%Z /\
  Forall2
    (fun issue issue' =>
       status (notes_answer fetch_notes apiKey projectId issue) = 200%Z /\
       issue' = GITLAB_ISSUE.set_comments issue
                  (comments_of_notes projectName
                     (json (notes_answer fetch_notes apiKey projectId issue))))
    (json listed) out.
Proof.
  unfold getGitlabIssuesFromRepo.
  destruct (gitlabClient fetch_issues apiKey _ "GET") as [issueList|e] eqn:E;
    simpl; [|discriminate].
  apply gitlabClient_Ok in E as [Hs ->]. intros H.
  apply attach_comments_Ok in H. split; [exact Hs|].
  remember (json _) as l eqn:Hl. clear Hl Hs.
  revert out H. induction l as [|i l IH]; intros out H; inversion H; subst.
  - constructor.
  - constructor; [|now apply IH].
    destruct H2 as [H200 Heq]. split; [exact H200|]. exact Heq.
Qed.

End FetcherFacts.

(** ** The import *)

Section ImportFacts.

Import Client GitlabImporter.

Lemma issues_of_fold (issues : list GITLAB_ISSUE.t) (importData : ImportResult.t) :
  ImportResult.issues (fold_left add_issue issues importData)
    = (ImportResult.issues importData ++ map imported_issue issues)%list.
Proof.
  revert importData; induction issues as [|issue issues IH]; intros importData;
    simpl.
  - now rewrite app_nil_r.
  - rewrite IH. simpl. now rewrite <- app_assoc.
Qed.

(** The aggregator pushes one imported issue per fetched issue, in order. *)
Lemma aggregate_issues (issues : list GITLAB_ISSUE.t) :
  ImportResult.issues (aggregate issues) = map imported_issue issues.
Proof. unfold aggregate. now rewrite issues_of_fold. Qed.

(** C9: the description of every imported issue is the description of the
    fetched issue followed by two newlines and the link to the original
    issue, whatever the description is; an empty description leaves the
    link alone. *)
Theorem description_carries_backlink (issues : list GITLAB_ISSUE.t) :
  map ImportedIssue.description (ImportResult.issues (aggregate issues))
    = map (fun issue =>
             GITLAB_ISSUE.description issue ++ newline ++ newline
             ++ "[View original issue in Gitlab]("
             ++ GITLAB_ISSUE.web_url issue ++ ")")
          issues
  /\
  forall issue,
    GITLAB_ISSUE.description issue = "" ->
    ImportedIssue.description (imported_issue issue)
      = newline ++ newline ++ "[View original issue in Gitlab]("
        ++ GITLAB_ISSUE.web_url issue ++ ")".
Proof.
  split.
  - rewrite aggregate_issues, map_map. reflexivity.
  - intros issue H. cbn [imported_issue ImportedIssue.description].
    rewrite H. reflexivity.
Qed.

Lemma description_carries_backlink_witness :
  GITLAB_ISSUE.description sample_issue = "" /\
  ImportedIssue.description (imported_issue sample_issue)
    = newline ++ newline
      ++ "[View original issue in Gitlab]"
      ++ "(https://git.niice.nl/niicedigitalmarketing/web/-/issues/4)".
Proof.
  split; [reflexivity|].
  apply (proj2 (description_carries_backlink [sample_issue]) sample_issue).
  reflexivity.
Defined.

Variable cannot_destructure : string.
Variable fetch_projects : request -> response (list Project.t).
Variable fetch_issues : request -> response (list GITLAB_ISSUE.t).
Variable fetch_notes : request -> response (list Note.t).

(** A finished import went through the resolver and the fetcher. *)
Lemma import_Ok (this : GitLabImporter) (data : ImportResult.t) :
  import cannot_destructure fetch_projects fetch_issues fetch_notes this
    = Ok data ->
  exists projectId issues,
    getGitlabProjectId cannot_destructure fetch_projects
      (accessToken this) (projectName this) = Ok projectId /\
    getGitlabIssuesFromRepo fetch_issues fetch_notes
      (accessToken this) projectId (projectName this) = Ok issues /\
    data = aggregate issues.
Proof.
  unfold import.
  destruct (getGitlabProjectId _ _ _ _) as [projectId|e] eqn:Hid; simpl;
    [|discriminate].
  destruct (getGitlabIssuesFromRepo _ _ _ _ _) as [issues|e] eqn:Hissues; simpl;
    [|discriminate].
  intros [= <-]. exists projectId, issues. repeat split. exact Hissues.
Qed.

End ImportFacts.

Section Abort.

Import Client GitlabImporter.

Variable cannot_destructure : string.
Variable fetch_projects : request -> response (list Project.t).
Variable fetch_issues : request -> response (list GITLAB_ISSUE.t).
Variable fetch_notes : request -> response (list Note.t).
Variable this : GitLabImporter.


Lemma import_search_401 :
  status (search_answer fetch_projects this) = 401%Z ->
  import cannot_destructure fetch_projects fetch_issues fetch_notes this
    = Err (Error "Failed to get project: Invalid API key").
Proof.
  intros H. unfold import, getGitlabProjectId.
  rewrite gitlabClient_401 by exact H. reflexivity.
Qed.

Lemma import_issues_401 (projectId : Z) :
  getGitlabProjectId cannot_destructure fetch_projects
    (accessToken this) (projectName this) = Ok projectId ->
  status (issues_answer fetch_issues this projectId) = 401%Z ->
  import cannot_destructure fetch_projects fetch_issues fetch_notes this
    = Err (Error "Failed to get issues: Invalid API key").
Proof.
  intros Hid H. unfold import. rewrite Hid. simpl.
  unfold getGitlabIssuesFromRepo.
  rewrite gitlabClient_401 by exact H. reflexivity.
Qed.

Lemma import_notes_401 (projectId : Z) (before after : list GITLAB_ISSUE.t)
    (issue : GITLAB_ISSUE.t) :
  getGitlabProjectId cannot_destructure fetch_projects
    (accessToken this) (projectName this) = Ok projectId ->
  status (issues_answer fetch_issues this projectId) = 200%Z ->
  json (issues_answer fetch_issues this projectId)
    = (before ++ issue :: after)%list ->
  (forall x, In x before ->
     status (notes_answer fetch_notes (accessToken this) projectId x) = 200%Z) ->
  status (notes_answer fetch_notes (accessToken this) projectId issue) = 401%Z ->
  import cannot_destructure fetch_projects fetch_issues fetch_notes this
    = Err (Error "Failed to get issues: Invalid API key").
Proof.
  intros Hid H200 Hlist Hbefore H401. unfold import. rewrite Hid. simpl.
  unfold getGitlabIssuesFromRepo.
  rewrite gitlabClient_200 by exact H200.
  fold (issues_answer fetch_issues this projectId). rewrite Hlist. simpl.
  rewrite map_app. simpl.
  rewrite (attach_comments_abort fetch_notes (accessToken this) projectId
             (projectName this) (map project_issue before)
             (map project_issue after) (project_issue issue)
             (Error "Failed to get issues: Invalid API key")).
  - reflexivity.
  - intros x Hx. apply in_map_iff in Hx as [x' [<- Hx']].
    apply (Hbefore x' Hx').
  - apply fetch_comments_401. exact H401.
Qed.

End Abort.

(** C7: the executor raises "Invalid API key" on 401, "Not found" on 404,
    "Unexpected status code: n" on any other status n but 200, and returns
    the decoded body on 200 and only then; and a 401 answer to any of the
    requests of an import (the project search, the issue list, the notes
    of an issue) ends the import with an error instead of a result. *)
Theorem status_classification_and_abort :
  (forall (A : Type) (fetch : request -> response A) (apiKey path method : string),
     let answer := fetch (request_sent apiKey path method) in
     (status answer = 401%Z ->
      Client.gitlabClient fetch apiKey path method = Err (Error "Invalid API key")) /\
     (status answer = 404%Z ->
      Client.gitlabClient fetch apiKey path method = Err (Error "Not found")) /\
     (status answer <> 401%Z -> status answer <> 404%Z -> status answer <> 200%Z ->
      Client.gitlabClient fetch apiKey path method
        = Err (Error ("Unexpected status code: "
                      ++ number_to_string (status answer)))) /\
     (status answer = 200%Z ->
      Client.gitlabClient fetch apiKey path method = Ok (json answer)) /\
     (forall a, Client.gitlabClient fetch apiKey path method = Ok a ->
                status answer = 200%Z /\ a = json answer))
  /\
  (forall (cannot_destructure : string)
          (fetch_projects : request -> response (list Project.t))
          (fetch_issues : request -> response (list GITLAB_ISSUE.t))
          (fetch_notes : request -> response (list Note.t))
          (this : GitlabImporter.GitLabImporter),
     let run :=
       GitlabImporter.import cannot_destructure fetch_projects fetch_issues
         fetch_notes this in
     (status (search_answer fetch_projects this) = 401%Z ->
      run = Err (Error "Failed to get project: Invalid API key")) /\
     (forall projectId,
        Client.getGitlabProjectId cannot_destructure fetch_projects
          (GitlabImporter.accessToken this) (GitlabImporter.projectName this)
          = Ok projectId ->
        (status (issues_answer fetch_issues this projectId) = 401%Z ->
         run = Err (Error "Failed to get issues: Invalid API key")) /\
        (forall before issue after,
           status (issues_answer fetch_issues this projectId) = 200%Z ->
           json (issues_answer fetch_issues this projectId)
             = (before ++ issue :: after)%list ->
           (forall x, In x before ->
              status (notes_answer fetch_notes (GitlabImporter.accessToken this)
                        projectId x) = 200%Z) ->
           status (notes_answer fetch_notes (GitlabImporter.accessToken this)
                     projectId issue) = 401%Z ->
           run = Err (Error "Failed to get issues: Invalid API key")))).
Proof.
  split.
  - intros A fetch apiKey path method answer. repeat split.
    + apply gitlabClient_401.
    + apply gitlabClient_404.
    + now apply gitlabClient_unexpected.
    + apply gitlabClient_200.
    + now apply gitlabClient_Ok in H.
    + now apply gitlabClient_Ok in H.
  - intros cd fp fi fn this run. split.
    + apply import_search_401.
    + intros projectId Hid. split.
      * now apply import_issues_401.
      * intros before issue after. now apply import_notes_401.
Qed.

Section Scenarios.

Import Client GitlabImporter.




Lemma status_classification_and_abort_witness :
  gitlabClient (answering 401 (@nil Note.t)) "key" "projects/5/issues" "GET"
    = Err (Error "Invalid API key") /\
  gitlabClient (answering 404 (@nil Note.t)) "key" "projects/5/issues" "GET"
    = Err (Error "Not found") /\
  gitlabClient (answering 500 (@nil Note.t)) "key" "projects/5/issues" "GET"
    = Err (Error "Unexpected status code: 500") /\
  gitlabClient (answering 200 [system_note]) "key" "projects/5/issues" "GET"
    = Ok [system_note] /\
  import "TypeError"
    (answering 401 []) (answering 200 [sample_issue]) (answering 200 [])
    (constructor "web" "key")
    = Err (Error "Failed to get project: Invalid API key") /\
  import "TypeError"
    (search_result [ {| Project.id := 5; Project.path := "web" |} ])
    (answering 401 []) (answering 200 [])
    (constructor "web" "key")
    = Err (Error "Failed to get issues: Invalid API key") /\
  import "TypeError"
    (search_result [ {| Project.id := 5; Project.path := "web" |} ])
    (answering 200 [sample_issue]) (answering 401 [])
    (constructor "web" "key")
    = Err (Error "Failed to get issues: Invalid API key").
Proof.
  pose proof status_classification_and_abort as [Hclass Habort].
  split.
  { apply (Hclass _ (answering 401 (@nil Note.t))). reflexivity. }
  split.
  { apply (Hclass _ (answering 404 (@nil Note.t))). reflexivity. }
  split.
  { apply (Hclass _ (answering 500 (@nil Note.t))); vm_compute; discriminate. }
  split.
  { apply (Hclass _ (answering 200 [system_note])). reflexivity. }
  split.
  { apply (Habort "TypeError" (answering 401 [])). reflexivity. }
  split.
  { apply (proj2 (Habort "TypeError"
                    (search_result [ {| Project.id := 5; Project.path := "web" |} ])
                    (answering 401 []) (answering 200 [])
                    (constructor "web" "key")) 5%Z).
    - vm_compute. reflexivity.
    - reflexivity. }
  apply (proj2 (proj2 (Habort "TypeError"
                  (search_result [ {| Project.id := 5; Project.path := "web" |} ])
                  (answering 200 [sample_issue]) (answering 401 [])
                  (constructor "web" "key")) 5%Z
                  ltac:(vm_compute; reflexivity))
           [] sample_issue []).
  - reflexivity.
  - reflexivity.
  - intros x [].
  - reflexivity.
Defined.

End Scenarios.

(** ** System notes *)

Section SystemNotes.

Import Client.

(** C8: every comment attached to a fetched issue was built from a note
    of that issue whose system flag is false; a system note yields no
    comment. *)
Theorem system_notes_never_imported
    (fetch_issues : request -> response (list GITLAB_ISSUE.t))
    (fetch_notes : request -> response (list Note.t))
    (apiKey : string) (projectId : Z) (projectName : string)
    (issues : list GITLAB_ISSUE.t) :
  getGitlabIssuesFromRepo fetch_issues fetch_notes apiKey projectId projectName
    = Ok issues ->
  forall issue comment,
    In issue issues ->
    In comment (GITLAB_ISSUE.comments issue) ->
    exists note,
      In note (json (notes_answer fetch_notes apiKey projectId issue)) /\
      Note.system note = false /\
      Comment.id comment = Note.id note /\
      Comment.userId comment = Note.author_id note /\
      Comment.createdAt comment = new_Date (Note.created_at note) /\
      Comment.body comment
        = replace (Note.body note) "/uploads/" (uploads_url projectName).
Proof.
  intros Hrun issue comment Hissue Hcomment.
  apply getGitlabIssuesFromRepo_Ok in Hrun as [_ Hall].
  remember (json _) as listed eqn:Hl. clear Hl.
  induction Hall as [|source issue' listed issues [_ Heq] _ IH].
  - destruct Hissue.
  - destruct Hissue as [<-|Hissue]; [|now apply IH].
    subst issue'. cbn [GITLAB_ISSUE.set_comments GITLAB_ISSUE.comments] in Hcomment.
    unfold comments_of_notes in Hcomment.
    apply in_map_iff in Hcomment as [note [<- Hnote]].
    apply filter_In in Hnote as [Hin Hsys].
    apply negb_true_iff in Hsys.
    exists note. repeat split; assumption.
Qed.

Lemma system_notes_never_imported_witness :
  getGitlabIssuesFromRepo (answering 200 [sample_issue])
    (answering 200 [system_note; user_note "see /uploads/1/a.png"])
    "key" 5 "web" = Ok [sample_fetched] /\
  GITLAB_ISSUE.comments sample_fetched = [sample_comment] /\
  exists note,
    In note [system_note; user_note "see /uploads/1/a.png"] /\
    Note.system note = false /\
    Comment.id sample_comment = Note.id note /\
    Comment.userId sample_comment = Note.author_id note /\
    Comment.createdAt sample_comment = new_Date (Note.created_at note) /\
    Comment.body sample_comment
      = replace (Note.body note) "/uploads/" (uploads_url "web").
Proof.
  split; [vm_compute; reflexivity|].
  split; [vm_compute; reflexivity|].
  apply (system_notes_never_imported (answering 200 [sample_issue])
           (answering 200 [system_note; user_note "see /uploads/1/a.png"])
           "key" 5 "web" [sample_fetched]
           ltac:(vm_compute; reflexivity) sample_fetched sample_comment).
  - left. reflexivity.
  - left. reflexivity.
Defined.

(** The importer hands the comments of the fetcher on unchanged. *)
Lemma imported_comments (issues : list GITLAB_ISSUE.t) :
  map GitlabImporter.ImportedIssue.comments
    (GitlabImporter.ImportResult.issues (GitlabImporter.aggregate issues))
    = map GITLAB_ISSUE.comments issues.
Proof. rewrite aggregate_issues, map_map. reflexivity. Qed.

End SystemNotes.

(** ** Numbers as property keys *)

Section NumberKeys.

Lemma number_to_string_parse (z : Z) :
  NilZero.int_of_string (number_to_string z) = Some (Z.to_int z).
Proof.
  unfold number_to_string. apply NilZero.isi; destruct z; simpl;
    try discriminate; intros [= H]; now apply Unsigned.to_uint_nonnil in H.
Qed.

Lemma number_to_string_inj (a b : Z) :
  number_to_string a = number_to_string b -> a = b.
Proof.
  intros H. apply DecimalZ.to_int_inj.
  pose proof (number_to_string_parse a) as Ha.
  rewrite H, number_to_string_parse in Ha. now injection Ha.
Qed.

Lemma number_to_string_eqb (a b : Z) :
  (number_to_string a =? number_to_string b) = (a =? b)%Z.
Proof.
  destruct (Z.eqb_spec a b) as [->|Hab].
  - apply String.eqb_refl.
  - apply String.eqb_neq. intros H. now apply number_to_string_inj in H.
Qed.

(** The decimal form of a number is no inherited property name. *)
Lemma number_not_inherited (z : Z) :
  get_own object_prototype (number_to_string z) = None.
Proof.
  destruct (get_own object_prototype (number_to_string z)) as [v|] eqn:E;
    [|reflexivity].
  apply get_own_In in E. simpl in E.
  pose proof (number_to_string_parse z) as Hz.
  repeat (destruct E as [E|E];
          [injection E as E _; rewrite <- E in Hz; vm_compute in Hz;
           discriminate|]).
  contradiction.
Qed.

End NumberKeys.

(** ** The user directory *)

Section Directory.

Import Client.

Lemma users_entries :
  users =
    [ (number_to_string 2, VStr "floris@niice.nl");
      (number_to_string 20, VStr "jorn@niice.nl");
      (number_to_string 49, VStr "ken@niice.nl");
      (number_to_string 57, VStr "mik@niice.nl");
      (number_to_string 84, VStr "tim@niice.nl") ].
Proof. vm_compute. reflexivity. Qed.

Lemma directory_lookup (id : Z) :
  mapGitlabIdToEmail id =
    if (id =? 2)%Z then VStr "floris@niice.nl"
    else if (id =? 20)%Z then VStr "jorn@niice.nl"
    else if (id =? 49)%Z then VStr "ken@niice.nl"
    else if (id =? 57)%Z then VStr "mik@niice.nl"
    else if (id =? 84)%Z then VStr "tim@niice.nl"
    else VUndefined.
Proof.
  unfold mapGitlabIdToEmail, get. cbn [to_property_key].
  rewrite number_not_inherited, users_entries. cbn [get_own].
  rewrite !number_to_string_eqb, !(Z.eqb_sym _ id).
  repeat (destruct (id =? _)%Z; [reflexivity|]). reflexivity.
Qed.

(** The directory answers with the address of each of its five ids and
    with [undefined] for every other id. *)
Theorem mapGitlabIdToEmail_directory (id : Z) :
  mapGitlabIdToEmail id =
    if (id =? 2)%Z then VStr "floris@niice.nl"
    else if (id =? 20)%Z then VStr "jorn@niice.nl"
    else if (id =? 49)%Z then VStr "ken@niice.nl"
    else if (id =? 57)%Z then VStr "mik@niice.nl"
    else if (id =? 84)%Z then VStr "tim@niice.nl"
    else VUndefined.
Proof. exact (directory_lookup id). Qed.

End Directory.

(** ** More on status derivation *)

Section StatusRange.

Lemma statuses_entries :
  Client.statuses =
    [ ("Status::On hold", VStr "Backlog"); ("Needs attention", VStr "Backlog");
      ("Status::Review", VStr "Review"); ("Status::Estimate", VStr "Estimate");
      ("Status::Refinement", VStr "Backlog");
      ("Status::Ready for Release", VStr "Done");
      ("Status::Approved Internally", VStr "Done");
      ("Status::In progress", VStr "In Progress");
      ("Status::To-do", VStr "Todo") ].
Proof. vm_compute. reflexivity. Qed.

Lemma statuses_copy_entries :
  ClientCopy.statuses =
    [ ("Status::On hold", VStr "Todo");
      ("Status::Review", VStr "Review"); ("Status::Estimate", VStr "Estimate");
      ("Status::Refinement", VStr "Todo");
      ("Status::Ready for Release", VStr "Done");
      ("Status::Approved Internally", VStr "Review");
      ("Status::In progress", VStr "In Progress");
      ("Status::To-do", VStr "Todo") ].
Proof. vm_compute. reflexivity. Qed.

(** A scan keeps any property that its start value has and that every
    value stored in the table or inherited has. *)
Lemma scan_invariant (table : object) (P : value -> Prop)
    (labels : list string) (init : value) :
  P init ->
  (forall l, In l labels -> has_property table (VStr l) = true ->
             P (get table (VStr l))) ->
  P (fold_left
       (fun newStatus label =>
          if has_property table (VStr label) then get table (VStr label)
          else newStatus)
       labels init).
Proof.
  revert init; induction labels as [|l labels IH]; intros init Hinit Hstep;
    simpl; [exact Hinit|].
  apply IH.
  - destruct (has_property table (VStr l)) eqn:E; [|exact Hinit].
    apply Hstep; [now left | exact E].
  - intros l' Hl'. apply Hstep. now right.
Qed.

(** On labels none of which names an inherited property the status is one
    of seven strings: the lowercase default or a status of the table. *)
Theorem mapStatusFromLabels_closed_set (labels : list string) :
  (forall l, In l labels -> inherited (VStr l) = false) ->
  In (Client.mapStatusFromLabels labels)
     [ VStr "backlog"; VStr "Backlog"; VStr "Review"; VStr "Estimate";
       VStr "Done"; VStr "In Progress"; VStr "Todo" ].
Proof.
  intros Hin. unfold Client.mapStatusFromLabels.
  apply scan_invariant; [now left|].
  intros l Hl Hprop. unfold has_property in Hprop.
  rewrite (Hin l Hl), orb_false_r in Hprop.
  unfold has_own_property in Hprop. unfold get.
  destruct (get_own Client.statuses (to_property_key (VStr l))) as [v|] eqn:E;
    [|discriminate].
  apply get_own_In in E. rewrite statuses_entries in E. simpl in E.
  repeat (destruct E as [E|E]; [injection E as _ <-; simpl; tauto|]).
  contradiction.
Qed.

Lemma mapStatusFromLabels_closed_set_witness :
  In (Client.mapStatusFromLabels ["Type::Bug"; "Status::Review"; "Frontend"])
     [ VStr "backlog"; VStr "Backlog"; VStr "Review"; VStr "Estimate";
       VStr "Done"; VStr "In Progress"; VStr "Todo" ].
Proof.
  apply (mapStatusFromLabels_closed_set ["Type::Bug"; "Status::Review"; "Frontend"]).
  intros l Hl. simpl in Hl.
  repeat (destruct Hl as [<-|Hl]; [reflexivity|]). destruct Hl.
Defined.

(** The last key of the table in the list decides the status, when no
    label after it is a key or an inherited name. *)
Theorem last_status_marker_wins (before after : list string) (l : string) :
  has_own_property Client.statuses (VStr l) = true ->
  (forall x, In x after -> has_property Client.statuses (VStr x) = false) ->
  Client.mapStatusFromLabels (before ++ l :: after)
    = get Client.statuses (VStr l) /\
  Client.mapStatusFromLabels (before ++ l :: after)
    = Client.mapStatusFromLabels [l].
Proof.
  intros Hl Hafter.
  assert (Hp : has_property Client.statuses (VStr l) = true)
    by (unfold has_property; now rewrite Hl).
  split.
  - unfold Client.mapStatusFromLabels. now apply scan_last_match.
  - unfold Client.mapStatusFromLabels at 1.
    rewrite (scan_last_match Client.statuses before after l _ Hp Hafter).
    unfold Client.mapStatusFromLabels. simpl. now rewrite Hp.
Qed.

Lemma last_status_marker_wins_witness :
  Client.mapStatusFromLabels
    (["Status::Refinement"; "Type::Bug"] ++ "Status::To-do" :: ["Backend"])
    = VStr "Todo".
Proof.
  apply (proj1 (last_status_marker_wins ["Status::Refinement"; "Type::Bug"]
                  ["Backend"] "Status::To-do" eq_refl
                  ltac:(intros x [<-|[]]; reflexivity))).
Defined.

(** Labels that are neither keys of the table nor inherited names leave
    the lowercase default. *)
Theorem no_status_marker_gives_default (labels : list string) :
  (forall x, In x labels ->
     has_own_property Client.statuses (VStr x) = false /\
     inherited (VStr x) = false) ->
  Client.mapStatusFromLabels labels = VStr "backlog".
Proof.
  intros H. unfold Client.mapStatusFromLabels. apply scan_no_match.
  intros x Hx. unfold has_property. now destruct (H x Hx) as [-> ->].
Qed.

Lemma no_status_marker_gives_default_witness :
  Client.mapStatusFromLabels ["Type::Bug"; "Prio :: 2"] = VStr "backlog".
Proof.
  apply (no_status_marker_gives_default ["Type::Bug"; "Prio :: 2"]).
  intros x Hx. simpl in Hx.
  repeat (destruct Hx as [<-|Hx]; [split; reflexivity|]). destruct Hx.
Defined.

Lemma scan_ext (f g : value -> string -> value) (labels : list string)
    (init : value) :
  (forall l acc, In l labels -> f acc l = g acc l) ->
  fold_left f labels init = fold_left g labels init.
Proof.
  revert init; induction labels as [|l labels IH]; intros init H; simpl.
  - reflexivity.
  - rewrite (H l init (or_introl eq_refl)). apply IH.
    intros l' acc Hl'. apply H. now right.
Qed.

(** The two copies of the status derivation differ on four labels only:
    on a list without them they return the same status. *)
Theorem status_versions_agree (labels : list string) :
  (forall l, In l labels ->
     ~ In l [ "Status::On hold"; "Needs attention"; "Status::Refinement";
              "Status::Approved Internally" ]) ->
  Client.mapStatusFromLabels labels = ClientCopy.mapStatusFromLabels labels.
Proof.
  intros H. unfold Client.mapStatusFromLabels, ClientCopy.mapStatusFromLabels.
  apply scan_ext. intros l acc Hl. specialize (H l Hl). simpl in H.
  assert (H1 : ("Status::On hold" =? l) = false)
    by (apply String.eqb_neq; tauto).
  assert (H2 : ("Needs attention" =? l) = false)
    by (apply String.eqb_neq; tauto).
  assert (H3 : ("Status::Refinement" =? l) = false)
    by (apply String.eqb_neq; tauto).
  assert (H4 : ("Status::Approved Internally" =? l) = false)
    by (apply String.eqb_neq; tauto).
  assert (Hown : get_own Client.statuses l = get_own ClientCopy.statuses l).
  { rewrite statuses_entries, statuses_copy_entries. cbn [get_own].
    rewrite H1, H2, H3, H4. reflexivity. }
  unfold has_property, has_own_property, get. cbn [to_property_key].
  now rewrite Hown.
Qed.

Lemma status_versions_agree_witness :
  Client.mapStatusFromLabels ["Type::Bug"; "Status::Review"; "toString"]
    = ClientCopy.mapStatusFromLabels ["Type::Bug"; "Status::Review"; "toString"].
Proof.
  apply (status_versions_agree ["Type::Bug"; "Status::Review"; "toString"]).
  intros l Hl Hin. simpl in Hl, Hin.
  repeat (destruct Hl as [<-|Hl];
          [repeat (destruct Hin as [Hin|Hin]; [discriminate|]); exact Hin|]).
  exact Hl.
Defined.

End StatusRange.

(** ** More on priority derivation *)

Section PriorityRange.

(** Whatever the labels, the priority is one of the four ranks. *)
Theorem mapPriority_range (labels : list string) :
  In (Client.mapPriority labels) [VNum 0; VNum 2; VNum 3; VNum 4].
Proof.
  destruct (find (fun label => includes "Prio :: " label) labels) as [l|] eqn:E.
  - rewrite (mapPriority_of_match labels l E). simpl.
    destruct (l =? "Prio :: Web"); [tauto|].
    destruct (l =? "Prio :: 1"); [tauto|].
    destruct (l =? "Prio :: 2"); [tauto|].
    destruct (l =? "Prio :: 3"); tauto.
  - unfold Client.mapPriority. rewrite E. left. reflexivity.
Qed.

End PriorityRange.

(** ** More on label normalization *)

Section LabelsShape.

Import Client.

Lemma filter_all {A : Type} (f : A -> bool) (xs : list A) :
  (forall x, In x xs -> f x = true) -> filter f xs = xs.
Proof.
  induction xs as [|x xs IH]; intros H; simpl; [reflexivity|].
  rewrite (H x (or_introl eq_refl)). f_equal. apply IH.
  intros y Hy. apply H. now right.
Qed.

Lemma remove_first_filter (v : value) (xs : list value) :
  (occurrences v xs <= 1)%nat ->
  remove_first v xs = filter (fun x => negb (strict_equals x v)) xs.
Proof.
  unfold occurrences. induction xs as [|x xs IH]; simpl; [reflexivity|].
  destruct (strict_equals x v) eqn:E; simpl; intros H.
  - symmetry. apply filter_all. intros y Hy. apply negb_true_iff.
    assert (H0 : occurrences v xs = 0%nat) by (unfold occurrences; lia).
    now apply (proj1 (occurrences_zero v xs) H0).
  - f_equal. now apply IH.
Qed.

Lemma occurrences_filter (v : value) (f : value -> bool) (xs : list value) :
  (occurrences v (filter f xs) <= occurrences v xs)%nat.
Proof.
  unfold occurrences. induction xs as [|x xs IH]; simpl; [lia|].
  destruct (f x); simpl; destruct (strict_equals x v); simpl; lia.
Qed.

Lemma filter_twice {A : Type} (f g : A -> bool) (xs : list A) :
  filter g (filter f xs) = filter (fun x => f x && g x) xs.
Proof.
  induction xs as [|x xs IH]; simpl; [reflexivity|].
  destruct (f x); simpl; [destruct (g x)|]; now rewrite IH.
Qed.

(** When none of the labels to remove is repeated, the first loop is a
    filter. *)
Lemma strip_filter (rs : list string) (xs : list value) :
  (forall r, In r rs -> (occurrences (VStr r) xs <= 1)%nat) ->
  strip rs xs
    = filter (fun x => negb (existsb (fun r => strict_equals x (VStr r)) rs)) xs.
Proof.
  unfold strip. revert xs; induction rs as [|r rs IH]; intros xs H; simpl.
  - symmetry. now apply filter_all.
  - rewrite remove_label_remove_first.
    rewrite remove_first_filter by (apply H; now left).
    rewrite IH.
    + rewrite filter_twice. apply filter_ext. intros x.
      now rewrite negb_orb.
    + intros r' Hr'.
      eapply Nat.le_trans; [apply occurrences_filter|]. apply H. now right.
Qed.

Lemma filter_map_VStr (f : value -> bool) (labels : list string) :
  filter f (map VStr labels) = map VStr (filter (fun l => f (VStr l)) labels).
Proof.
  induction labels as [|l labels IH]; simpl; [reflexivity|].
  destruct (f (VStr l)); simpl; now rewrite IH.
Qed.

(** On a label list in which no removable label is repeated, [mapLabels]
    drops the removable labels and renames the others where they stand. *)
Theorem mapLabels_filter_rename (labels : list string) :
  (forall r, In r removableLabels -> (count_occ string_dec labels r <= 1)%nat) ->
  mapLabels (map VStr labels)
    = map (fun l => rename_label (VStr l))
          (filter (fun l => negb (removable_label l)) labels).
Proof.
  intros H. rewrite mapLabels_strip_rename, strip_filter.
  - rewrite filter_map_VStr, map_map. reflexivity.
  - intros r Hr. rewrite occurrences_map_VStr. now apply H.
Qed.

Lemma mapLabels_filter_rename_witness :
  mapLabels (map VStr ["Backend"; "Prio :: 1"; "Customer"; "Env :: University"])
    = [VStr "Back-end"; VStr "Customer"].
Proof.
  apply (mapLabels_filter_rename
           ["Backend"; "Prio :: 1"; "Customer"; "Env :: University"]).
  intros r Hr. simpl in Hr.
  repeat (destruct Hr as [<-|Hr]; [vm_compute; lia|]).
  destruct Hr.
Defined.

Lemma rename_keeps_removable :
  forallb
    (fun r =>
       strict_equals (rename_label (VStr r)) (VStr r)
       && forallb (fun v => negb (strict_equals v (VStr r)))
            (map snd GitlabLabelsToLinearLabels ++ map snd object_prototype))
    removableLabels = true.
Proof. vm_compute. reflexivity. Qed.

Lemma rename_label_removable (x : value) (r : string) :
  In r removableLabels ->
  strict_equals (rename_label x) (VStr r) = strict_equals x (VStr r).
Proof.
  intros Hr. pose proof rename_keeps_removable as H.
  rewrite forallb_forall in H. specialize (H r Hr).
  apply andb_true_iff in H as [Hsame Hnone].
  destruct (strict_equals x (VStr r)) eqn:E.
  - apply strict_equals_spec in E as ->. exact Hsame.
  - unfold rename_label.
    destruct (has_property GitlabLabelsToLinearLabels x) eqn:Hp; [|exact E].
    apply get_of_property in Hp. rewrite forallb_forall in Hnone.
    apply negb_true_iff. now apply Hnone.
Qed.

(** Each call of [mapLabels] takes away exactly one occurrence of every
    removable label that occurs, whatever the list holds. *)
Theorem mapLabels_removes_one_occurrence (xs : list value) (r : string) :
  In r removableLabels ->
  occurrences (VStr r) (mapLabels xs) = Nat.pred (occurrences (VStr r) xs).
Proof.
  intros Hr. rewrite mapLabels_strip_rename.
  rewrite <- (strip_removed removableLabels xs r removableLabels_NoDup Hr).
  unfold occurrences. generalize (strip removableLabels xs) as ys.
  induction ys as [|y ys IH]; simpl; [reflexivity|].
  rewrite (rename_label_removable y r Hr).
  destruct (strict_equals y (VStr r)); simpl; now rewrite IH.
Qed.

Lemma mapLabels_removes_one_occurrence_witness :
  occurrences (VStr "Prio :: 1")
    (mapLabels (map VStr ["Prio :: 1"; "Backend"; "Prio :: 1"; "Prio :: 1"]))
    = 2%nat.
Proof.
  apply (mapLabels_removes_one_occurrence
           (map VStr ["Prio :: 1"; "Backend"; "Prio :: 1"; "Prio :: 1"])
           "Prio :: 1").
  simpl. tauto.
Defined.

End LabelsShape.

(** ** More on the executor and the resolver *)

Section ResolverShape.

Import Client.

Lemma find_Some_split {A : Type} (f : A -> bool) (xs : list A) (x : A) :
  find f xs = Some x ->
  exists before after,
    xs = (before ++ x :: after)%list /\
    (forall y, In y before -> f y = false) /\ f x = true.
Proof.
  induction xs as [|y xs IH]; simpl; [discriminate|].
  destruct (f y) eqn:E.
  - intros [= ->]. exists [], xs. repeat split; [intros z []|exact E].
  - intros H. destruct (IH H) as [before [after [-> [Hb Hx]]]].
    exists (y :: before), after. repeat split; [|exact Hx].
    intros z [<-|Hz]; [exact E | now apply Hb].
Qed.

(** The three errors of the executor, and the status behind each. *)
Lemma gitlabClient_Err {A : Type} (fetch : request -> response A)
    (apiKey path method : string) (e : error) :
  gitlabClient fetch apiKey path method = Err e ->
  let code := status (fetch (request_sent apiKey path method)) in
  (code = 401%Z /\ e = Error "Invalid API key") \/
  (code = 404%Z /\ e = Error "Not found") \/
  (code <> 401%Z /\ code <> 404%Z /\ code <> 200%Z /\
   e = Error ("Unexpected status code: " ++ number_to_string code)).
Proof.
  unfold gitlabClient. fold (request_sent apiKey path method).
  destruct (fetch (request_sent apiKey path method)) as [code body]; simpl.
  destruct (Z.eqb_spec code 401); [intros [= <-]; now left|].
  destruct (Z.eqb_spec code 404); [intros [= <-]; right; now left|].
  destruct (Z.eqb_spec code 200); simpl; [discriminate|].
  intros [= <-]. right. right. repeat split; assumption.
Qed.

Lemma catch_wrap_Err {A : Type} (p : result A) (context : string) (e : error) :
  catch p (fun error => Err (Error (context ++ message error))) = Err e ->
  exists e', p = Err e' /\ e = Error (context ++ message e').
Proof.
  destruct p as [a|e']; simpl; [discriminate|].
  intros [= <-]. now exists e'.
Qed.

Variable cannot_destructure : string.
Variable fetch : request -> response (list Project.t).
Variables apiKey projectName : string.

(** The resolver returns an id exactly when the search answered 200 and
    the first entry whose path is the name has that id, a non-zero one. *)
Theorem getGitlabProjectId_Ok_iff (id : Z) :
  getGitlabProjectId cannot_destructure fetch apiKey projectName = Ok id <->
  status (fetch (request_sent apiKey
                   ("projects?per_page=100&search=" ++ projectName) "GET"))
    = 200%Z /\
  exists before project after,
    json (fetch (request_sent apiKey
                   ("projects?per_page=100&search=" ++ projectName) "GET"))
      = (before ++ project :: after)%list /\
    (forall p, In p before -> Project.path p <> projectName) /\
    Project.path project = projectName /\
    Project.id project = id /\ id <> 0%Z.
Proof.
  unfold getGitlabProjectId. split.
  - destruct (gitlabClient fetch apiKey _ "GET") as [projects|e] eqn:E;
      simpl; [|discriminate].
    apply gitlabClient_Ok in E as [Hs ->]. split; [exact Hs|].
    unfold select_project in H.
    destruct (find _ _) as [project|] eqn:Hfind; simpl in H; [|discriminate].
    apply find_Some_split in Hfind as [before [after [Hsplit [Hb Hp]]]].
    apply String.eqb_eq in Hp.
    destruct (Z.eqb_spec (Project.id project) 0); simpl in H; [discriminate|].
    injection H as <-. exists before, project, after.
    repeat split; try assumption.
    intros p Hin. apply String.eqb_neq. now apply Hb.
  - intros [Hs [before [project [after [Hsplit [Hb [Hp [Hid Hnz]]]]]]]].
    rewrite gitlabClient_200 by exact Hs. rewrite Hsplit. simpl.
    unfold select_project. rewrite find_first.
    + cbn [truthy]. subst id.
      destruct (Z.eqb_spec (Project.id project) 0); [contradiction|reflexivity].
    + intros p Hin. apply String.eqb_neq. now apply Hb.
    + now apply String.eqb_eq.
Qed.

(** How the resolver fails, in terms of what the executor gave: every
    failure is an [Error] whose message starts with "Failed to get
    project: "; an error of the executor is passed on under that prefix
    with its message; a returned search without an entry of the requested
    path fails with the engine's message for destructuring [undefined];
    and a first entry of that path whose id is zero fails with the
    resolver's own "Project ... not found". *)
Theorem getGitlabProjectId_failures :
  (forall e,
     getGitlabProjectId cannot_destructure fetch apiKey projectName = Err e ->
     exists m, e = Error ("Failed to get project: " ++ m)) /\
  (forall e,
     gitlabClient fetch apiKey
       ("projects?per_page=100&search=" ++ projectName) "GET" = Err e ->
     getGitlabProjectId cannot_destructure fetch apiKey projectName
       = Err (Error ("Failed to get project: " ++ message e))) /\
  (forall projects,
     gitlabClient fetch apiKey
       ("projects?per_page=100&search=" ++ projectName) "GET" = Ok projects ->
     (forall p, In p projects -> Project.path p <> projectName) ->
     getGitlabProjectId cannot_destructure fetch apiKey projectName
       = Err (Error ("Failed to get project: " ++ cannot_destructure))) /\
  (forall before project after,
     gitlabClient fetch apiKey
       ("projects?per_page=100&search=" ++ projectName) "GET"
       = Ok (before ++ project :: after)%list ->
     (forall p, In p before -> Project.path p <> projectName) ->
     Project.path project = projectName ->
     Project.id project = 0%Z ->
     getGitlabProjectId cannot_destructure fetch apiKey projectName
       = Err (Error ("Failed to get project: Project " ++ projectName
                     ++ " not found"))).
Proof.
  unfold getGitlabProjectId. split; [|split; [|split]].
  - intros e H. apply catch_wrap_Err in H as [e' [_ ->]].
    now exists (message e').
  - intros e ->. reflexivity.
  - intros projects -> Hnone. simpl.
    now rewrite (select_project_no_match cannot_destructure _ _ Hnone).
  - intros before project after -> Hbefore Hpath Hid. simpl.
    unfold select_project. rewrite find_first.
    + rewrite Hid. reflexivity.
    + intros p Hin. apply String.eqb_neq. now apply Hbefore.
    + now apply String.eqb_eq.
Qed.

End ResolverShape.

Section ResolverShapeWitnesses.

Import Client.

Lemma getGitlabProjectId_Ok_iff_witness :
  getGitlabProjectId "TypeError"
    (search_result [ {| Project.id := 7; Project.path := "bar-foo" |};
                     {| Project.id := 3; Project.path := "foo" |};
                     {| Project.id := 9; Project.path := "foo" |} ])
    "key" "foo" = Ok 3%Z.
Proof.
  apply (proj2 (getGitlabProjectId_Ok_iff "TypeError"
                  (search_result
                     [ {| Project.id := 7; Project.path := "bar-foo" |};
                       {| Project.id := 3; Project.path := "foo" |};
                       {| Project.id := 9; Project.path := "foo" |} ])
                  "key" "foo" 3%Z)).
  split; [reflexivity|].
  exists [ {| Project.id := 7; Project.path := "bar-foo" |} ],
         {| Project.id := 3; Project.path := "foo" |},
         [ {| Project.id := 9; Project.path := "foo" |} ].
  repeat split.
  - intros p [<-|[]]. discriminate.
  - discriminate.
Defined.

Lemma getGitlabProjectId_failures_witness :
  getGitlabProjectId "TypeError" (answering 503 []) "key" "foo"
    = Err (Error "Failed to get project: Unexpected status code: 503") /\
  getGitlabProjectId "TypeError"
    (search_result [ {| Project.id := 7; Project.path := "bar-foo" |} ])
    "key" "foo"
    = Err (Error "Failed to get project: TypeError") /\
  getGitlabProjectId "TypeError"
    (search_result [ {| Project.id := 7; Project.path := "bar-foo" |};
                     {| Project.id := 0; Project.path := "foo" |} ])
    "key" "foo"
    = Err (Error "Failed to get project: Project foo not found") /\
  exists m,
    Error "Failed to get project: Unexpected status code: 503"
      = Error ("Failed to get project: " ++ m).
Proof.
  split; [|split; [|split]].
  - apply (proj1 (proj2 (getGitlabProjectId_failures "TypeError"
                           (answering 503 []) "key" "foo"))
             (Error "Unexpected status code: 503")).
    vm_compute. reflexivity.
  - apply (proj1 (proj2 (proj2 (getGitlabProjectId_failures "TypeError"
             (search_result [ {| Project.id := 7; Project.path := "bar-foo" |} ])
             "key" "foo")))
             [ {| Project.id := 7; Project.path := "bar-foo" |} ]).
    + vm_compute. reflexivity.
    + intros p [<-|[]]. discriminate.
  - apply (proj2 (proj2 (proj2 (getGitlabProjectId_failures "TypeError"
             (search_result [ {| Project.id := 7; Project.path := "bar-foo" |};
                              {| Project.id := 0; Project.path := "foo" |} ])
             "key" "foo")))
             [ {| Project.id := 7; Project.path := "bar-foo" |} ]
             {| Project.id := 0; Project.path := "foo" |} []).
    + vm_compute. reflexivity.
    + intros p [<-|[]]. discriminate.
    + reflexivity.
    + reflexivity.
  - apply (proj1 (getGitlabProjectId_failures "TypeError"
                    (answering 503 []) "key" "foo")).
    vm_compute. reflexivity.
Defined.

End ResolverShapeWitnesses.

(** ** More on the fetcher and the import *)

Section FetcherShape.

Import Client.

Variable fetch_issues : request -> response (list GITLAB_ISSUE.t).
Variable fetch_notes : request -> response (list Note.t).
Variable apiKey : string.
Variable projectId : Z.
Variable projectName : string.

Lemma attach_comments_iff (issues out : list GITLAB_ISSUE.t) :
  attach_comments fetch_notes apiKey projectId projectName issues = Ok out <->
  (forall issue, In issue issues ->
     status (notes_answer fetch_notes apiKey projectId issue) = 200%Z) /\
  out = map (with_comments fetch_notes apiKey projectId projectName) issues.
Proof.
  revert out; induction issues as [|issue issues IH]; intros out; simpl.
  - split.
    + intros [= <-]. split; [intros i []|reflexivity].
    + intros [_ ->]. reflexivity.
  - split.
    + destruct (fetch_comments _ _ _ _ issue) as [cs|e] eqn:E; simpl;
        [|discriminate].
      destruct (attach_comments _ _ _ _ issues) as [rest|e] eqn:E'; simpl;
        [|discriminate].
      intros [= <-]. apply fetch_comments_Ok in E as [Hs ->].
      destruct (proj1 (IH rest) eq_refl) as [Hall ->]. split.
      * intros i [<-|Hi]; [exact Hs | now apply Hall].
      * reflexivity.
    + intros [Hall ->].
      rewrite fetch_comments_200 by (apply Hall; now left). simpl.
      rewrite (proj2 (IH _) (conj (fun i Hi => Hall i (or_intror Hi)) eq_refl)).
      reflexivity.
Qed.

Lemma fetch_comments_Err (issue : GITLAB_ISSUE.t) (e : error) :
  fetch_comments fetch_notes apiKey projectId projectName issue = Err e ->
  exists m,
    e = Error ("Failed to get issues: " ++ m) /\
    (m = "Invalid API key" \/ m = "Not found" \/
     exists code, m = "Unexpected status code: " ++ number_to_string code).
Proof.
  unfold fetch_comments. intros H.
  apply catch_wrap_Err in H as [e' [H ->]].
  destruct (gitlabClient fetch_notes apiKey _ "GET") as [notes|e''] eqn:E;
    simpl in H; [discriminate|].
  injection H as ->. apply gitlabClient_Err in E.
  destruct E as [[_ ->]|[[_ ->]|[_ [_ [_ ->]]]]]; simpl;
    eexists; (split; [reflexivity|]); eauto.
Qed.

Lemma attach_comments_Err (issues : list GITLAB_ISSUE.t) (e : error) :
  attach_comments fetch_notes apiKey projectId projectName issues = Err e ->
  exists m,
    e = Error ("Failed to get issues: " ++ m) /\
    (m = "Invalid API key" \/ m = "Not found" \/
     exists code, m = "Unexpected status code: " ++ number_to_string code).
Proof.
  induction issues as [|issue issues IH]; simpl; [discriminate|].
  destruct (fetch_comments _ _ _ _ issue) as [cs|e'] eqn:E; simpl.
  - destruct (attach_comments _ _ _ _ issues) as [rest|e'']; simpl;
      [discriminate|].
    intros [= <-]. now apply IH.
  - intros [= <-]. now apply fetch_comments_Err in E.
Qed.

Lemma fetch_comments_returned (issue : GITLAB_ISSUE.t) (notes : list Note.t) :
  gitlabClient fetch_notes apiKey
    (notes_path projectId (GITLAB_ISSUE.iid issue)) "GET" = Ok notes ->
  fetch_comments fetch_notes apiKey projectId projectName issue
    = Ok (comments_of_notes projectName notes).
Proof. unfold fetch_comments. now intros ->. Qed.

Lemma fetch_comments_failed (issue : GITLAB_ISSUE.t) (e : error) :
  gitlabClient fetch_notes apiKey
    (notes_path projectId (GITLAB_ISSUE.iid issue)) "GET" = Err e ->
  fetch_comments fetch_notes apiKey projectId projectName issue
    = Err (Error ("Failed to get issues: " ++ message e)).
Proof. unfold fetch_comments. now intros ->. Qed.

Lemma fetch_comments_inv (issue : GITLAB_ISSUE.t) (cs : list Comment.t) :
  fetch_comments fetch_notes apiKey projectId projectName issue = Ok cs ->
  exists notes,
    gitlabClient fetch_notes apiKey
      (notes_path projectId (GITLAB_ISSUE.iid issue)) "GET" = Ok notes /\
    cs = comments_of_notes projectName notes.
Proof.
  unfold fetch_comments.
  destruct (gitlabClient fetch_notes apiKey _ "GET") as [notes|e]; simpl;
    [|discriminate].
  intros [= <-]. now exists notes.
Qed.

(** The loop returns exactly when the executor returned the notes of
    every issue. *)
Lemma attach_comments_returns (issues out : list GITLAB_ISSUE.t) :
  attach_comments fetch_notes apiKey projectId projectName issues = Ok out <->
  exists notes_of : GITLAB_ISSUE.t -> list Note.t,
    (forall issue, In issue issues ->
       gitlabClient fetch_notes apiKey
         (notes_path projectId (GITLAB_ISSUE.iid issue)) "GET"
         = Ok (notes_of issue)) /\
    out = map (fun issue =>
                 GITLAB_ISSUE.set_comments issue
                   (comments_of_notes projectName (notes_of issue)))
              issues.
Proof.
  split.
  - intros H. apply attach_comments_iff in H as [Hall ->].
    exists (fun issue => json (notes_answer fetch_notes apiKey projectId issue)).
    split; [|reflexivity].
    intros issue Hin. apply gitlabClient_200. now apply Hall.
  - intros [notes_of [Hall ->]].
    induction issues as [|issue issues IH]; simpl; [reflexivity|].
    rewrite (fetch_comments_returned issue (notes_of issue))
      by (apply Hall; now left).
    simpl. rewrite IH by (intros i Hi; apply Hall; now right). reflexivity.
Qed.

(** The loop fails with the wrapped error of the first notes request
    that the executor did not return. *)
Lemma attach_comments_first_failure (before after : list GITLAB_ISSUE.t)
    (issue : GITLAB_ISSUE.t) (e : error) :
  (forall x, In x before ->
     exists notes,
       gitlabClient fetch_notes apiKey
         (notes_path projectId (GITLAB_ISSUE.iid x)) "GET" = Ok notes) ->
  gitlabClient fetch_notes apiKey
    (notes_path projectId (GITLAB_ISSUE.iid issue)) "GET" = Err e ->
  attach_comments fetch_notes apiKey projectId projectName
    (before ++ issue :: after)
    = Err (Error ("Failed to get issues: " ++ message e)).
Proof.
  intros Hbefore Hissue. induction before as [|x before IH]; simpl.
  - now rewrite (fetch_comments_failed issue e Hissue).
  - destruct (Hbefore x (or_introl eq_refl)) as [notes Hx].
    rewrite (fetch_comments_returned x notes Hx). simpl.
    rewrite IH by (intros y Hy; apply Hbefore; now right). reflexivity.
Qed.

Lemma fetcher_returns (out : list GITLAB_ISSUE.t) :
  getGitlabIssuesFromRepo fetch_issues fetch_notes apiKey projectId projectName
    = Ok out <->
  exists (listed : list GITLAB_ISSUE.t)
         (notes_of : GITLAB_ISSUE.t -> list Note.t),
    gitlabClient fetch_issues apiKey (issues_path projectId) "GET" = Ok listed /\
    (forall issue, In issue listed ->
       gitlabClient fetch_notes apiKey
         (notes_path projectId (GITLAB_ISSUE.iid issue)) "GET"
         = Ok (notes_of issue)) /\
    out = map (fun issue =>
                 GITLAB_ISSUE.set_comments issue
                   (comments_of_notes projectName (notes_of issue)))
              listed.
Proof.
  unfold getGitlabIssuesFromRepo. split.
  - destruct (gitlabClient fetch_issues apiKey _ "GET") as [listed|e];
      simpl; [|discriminate].
    intros H. apply attach_comments_returns in H as [notes_of [Hall ->]].
    exists listed, (fun issue => notes_of (project_issue issue)).
    split; [reflexivity|]. split.
    + intros issue Hin. apply (Hall (project_issue issue)). now apply in_map.
    + rewrite map_map. reflexivity.
  - intros [listed [notes_of [-> [Hall ->]]]]. simpl.
    apply attach_comments_returns.
    exists (fun issue =>
              json (notes_answer fetch_notes apiKey projectId issue)).
    split.
    + intros issue Hin. apply in_map_iff in Hin as [i [<- Hi]].
      apply gitlabClient_200.
      now apply (gitlabClient_Ok _ _ _ _ _ (Hall i Hi)).
    + rewrite map_map. apply map_ext_in. intros i Hi.
      destruct (gitlabClient_Ok _ _ _ _ _ (Hall i Hi)) as [_ ->].
      reflexivity.
Qed.

(** The fetcher is all or nothing: it returns exactly when the executor
    returned the issue list and the notes of every listed issue, and then
    it returns the listed issues in their order, each with the comments
    built from its own notes. *)
Theorem getGitlabIssuesFromRepo_all_or_nothing (out : list GITLAB_ISSUE.t) :
  getGitlabIssuesFromRepo fetch_issues fetch_notes apiKey projectId projectName
    = Ok out <->
  exists (listed : list GITLAB_ISSUE.t)
         (notes_of : GITLAB_ISSUE.t -> list Note.t),
    gitlabClient fetch_issues apiKey (issues_path projectId) "GET" = Ok listed /\
    (forall issue, In issue listed ->
       gitlabClient fetch_notes apiKey
         (notes_path projectId (GITLAB_ISSUE.iid issue)) "GET"
         = Ok (notes_of issue)) /\
    out = map (fun issue =>
                 GITLAB_ISSUE.set_comments issue
                   (comments_of_notes projectName (notes_of issue)))
              listed.
Proof. exact (fetcher_returns out). Qed.

(** How the fetcher fails, in terms of what the executor gave: every
    failure is an [Error] whose message starts with "Failed to get
    issues: "; an error of the executor at the issue list is passed on
    under that prefix with its message; and so is the error at the notes
    of the first issue whose notes the executor did not return, the notes
    of the issues before it having been returned. *)
Theorem getGitlabIssuesFromRepo_failures :
  (forall e,
     getGitlabIssuesFromRepo fetch_issues fetch_notes apiKey projectId
       projectName = Err e ->
     exists m, e = Error ("Failed to get issues: " ++ m)) /\
  (forall e,
     gitlabClient fetch_issues apiKey (issues_path projectId) "GET" = Err e ->
     getGitlabIssuesFromRepo fetch_issues fetch_notes apiKey projectId
       projectName = Err (Error ("Failed to get issues: " ++ message e))) /\
  (forall before issue after e,
     gitlabClient fetch_issues apiKey (issues_path projectId) "GET"
       = Ok (before ++ issue :: after)%list ->
     (forall x, In x before ->
        exists notes,
          gitlabClient fetch_notes apiKey
            (notes_path projectId (GITLAB_ISSUE.iid x)) "GET" = Ok notes) ->
     gitlabClient fetch_notes apiKey
       (notes_path projectId (GITLAB_ISSUE.iid issue)) "GET" = Err e ->
     getGitlabIssuesFromRepo fetch_issues fetch_notes apiKey projectId
       projectName = Err (Error ("Failed to get issues: " ++ message e))).
Proof.
  unfold getGitlabIssuesFromRepo. split; [|split].
  - intros e. destruct (catch _ _) as [issues|e'] eqn:E; simpl.
    + intros H. apply attach_comments_Err in H as [m [-> _]]. now exists m.
    + intros [= <-]. apply catch_wrap_Err in E as [e'' [_ ->]].
      now exists (message e'').
  - intros e ->. reflexivity.
  - intros before issue after e -> Hbefore Hissue. simpl.
    rewrite map_app. simpl.
    apply attach_comments_first_failure; [|exact Hissue].
    intros x Hx. apply in_map_iff in Hx as [x' [<- Hx']].
    apply (Hbefore x' Hx').
Qed.

End FetcherShape.

Section ImportShape.

Import Client GitlabImporter.

Variable cannot_destructure : string.
Variable fetch_projects : request -> response (list Project.t).
Variable fetch_issues : request -> response (list GITLAB_ISSUE.t).
Variable fetch_notes : request -> response (list Note.t).
Variable this : GitLabImporter.

(** An import returns a result exactly when the project was resolved and
    the executor returned the issue list and the notes of every listed
    issue; the result then aggregates the listed issues, in their order,
    with the comments built from their notes. *)
Theorem import_Ok_iff (data : ImportResult.t) :
  import cannot_destructure fetch_projects fetch_issues fetch_notes this
    = Ok data <->
  exists (projectId : Z) (listed : list GITLAB_ISSUE.t)
         (notes_of : GITLAB_ISSUE.t -> list Note.t),
    getGitlabProjectId cannot_destructure fetch_projects
      (accessToken this) (projectName this) = Ok projectId /\
    gitlabClient fetch_issues (accessToken this) (issues_path projectId) "GET"
      = Ok listed /\
    (forall issue, In issue listed ->
       gitlabClient fetch_notes (accessToken this)
         (notes_path projectId (GITLAB_ISSUE.iid issue)) "GET"
         = Ok (notes_of issue)) /\
    data = aggregate
             (map (fun issue =>
                     GITLAB_ISSUE.set_comments issue
                       (comments_of_notes (projectName this) (notes_of issue)))
                  listed).
Proof.
  split.
  - intros H. apply import_Ok in H as [projectId [issues [Hid [Hrun ->]]]].
    apply fetcher_returns in Hrun as [listed [notes_of [Hl [Hall ->]]]].
    exists projectId, listed, notes_of. repeat split; assumption.
  - intros [projectId [listed [notes_of [Hid [Hl [Hall ->]]]]]]. unfold import.
    rewrite Hid. simpl.
    rewrite (proj2 (fetcher_returns fetch_issues fetch_notes (accessToken this)
                      projectId (projectName this) _)
               (ex_intro _ listed
                  (ex_intro _ notes_of (conj Hl (conj Hall eq_refl))))).
    reflexivity.
Qed.

(** A failed import fails with an [Error] that names the step that
    failed: the resolver or the fetcher. *)
Theorem import_failures (e : error) :
  import cannot_destructure fetch_projects fetch_issues fetch_notes this
    = Err e ->
  exists m,
    e = Error ("Failed to get project: " ++ m) \/
    e = Error ("Failed to get issues: " ++ m).
Proof.
  unfold import.
  destruct (getGitlabProjectId _ _ _ _) as [projectId|e'] eqn:Hid; simpl.
  - destruct (getGitlabIssuesFromRepo _ _ _ _ _) as [issues|e''] eqn:Hrun;
      simpl; [discriminate|].
    intros [= <-]. unfold getGitlabIssuesFromRepo in Hrun.
    destruct (catch _ _) as [l|e3] eqn:E; simpl in Hrun.
    + apply attach_comments_Err in Hrun as [m [-> _]]. exists m. now right.
    + injection Hrun as <-. apply catch_wrap_Err in E as [e4 [_ ->]].
      eexists. right. reflexivity.
  - intros [= <-]. unfold getGitlabProjectId in Hid.
    apply catch_wrap_Err in Hid as [e4 [_ ->]]. eexists. left. reflexivity.
Qed.

End ImportShape.

Section ShapeWitnesses.

Import Client GitlabImporter.

Lemma getGitlabIssuesFromRepo_all_or_nothing_witness :
  getGitlabIssuesFromRepo (answering 200 [sample_issue])
    (answering 200 [system_note; user_note "see /uploads/1/a.png"])
    "key" 5 "web" = Ok [sample_fetched].
Proof.
  apply (proj2 (getGitlabIssuesFromRepo_all_or_nothing
                  (answering 200 [sample_issue])
                  (answering 200 [system_note; user_note "see /uploads/1/a.png"])
                  "key" 5 "web" [sample_fetched])).
  exists [sample_issue],
         (fun _ => [system_note; user_note "see /uploads/1/a.png"]).
  split; [reflexivity|]. split.
  - intros issue _. reflexivity.
  - vm_compute. reflexivity.
Defined.

Lemma getGitlabIssuesFromRepo_failures_witness :
  getGitlabIssuesFromRepo (answering 500 []) (answering 200 []) "key" 5 "web"
    = Err (Error "Failed to get issues: Unexpected status code: 500") /\
  getGitlabIssuesFromRepo (answering 200 [sample_issue]) (answering 404 [])
    "key" 5 "web"
    = Err (Error "Failed to get issues: Not found") /\
  exists m,
    Error "Failed to get issues: Not found"
      = Error ("Failed to get issues: " ++ m).
Proof.
  split; [|split].
  - apply (proj1 (proj2 (getGitlabIssuesFromRepo_failures (answering 500 [])
                           (answering 200 []) "key" 5 "web"))
             (Error "Unexpected status code: 500")).
    vm_compute. reflexivity.
  - apply (proj2 (proj2 (getGitlabIssuesFromRepo_failures
                           (answering 200 [sample_issue]) (answering 404 [])
                           "key" 5 "web"))
             [] sample_issue [] (Error "Not found")).
    + reflexivity.
    + intros x [].
    + reflexivity.
  - apply (proj1 (getGitlabIssuesFromRepo_failures
                    (answering 200 [sample_issue]) (answering 404 [])
                    "key" 5 "web")).
    vm_compute. reflexivity.
Defined.

Lemma import_Ok_iff_witness :
  import "TypeError"
    (search_result [ {| Project.id := 5; Project.path := "web" |} ])
    (answering 200 [sample_issue])
    (answering 200 [system_note; user_note "see /uploads/1/a.png"])
    (constructor "web" "key")
    = Ok (aggregate [sample_fetched]).
Proof.
  apply (proj2 (import_Ok_iff "TypeError"
                  (search_result [ {| Project.id := 5; Project.path := "web" |} ])
                  (answering 200 [sample_issue])
                  (answering 200 [system_note; user_note "see /uploads/1/a.png"])
                  (constructor "web" "key") (aggregate [sample_fetched]))).
  exists 5%Z, [sample_issue],
         (fun _ => [system_note; user_note "see /uploads/1/a.png"]).
  split; [vm_compute; reflexivity|].
  split; [reflexivity|]. split.
  - intros issue _. reflexivity.
  - vm_compute. reflexivity.
Defined.

Lemma import_failures_witness :
  exists m,
    Error "Failed to get issues: Unexpected status code: 500"
      = Error ("Failed to get project: " ++ m) \/
    Error "Failed to get issues: Unexpected status code: 500"
      = Error ("Failed to get issues: " ++ m).
Proof.
  apply (import_failures "TypeError"
           (search_result [ {| Project.id := 5; Project.path := "web" |} ])
           (answering 500 []) (answering 200 [])
           (constructor "web" "key")).
  vm_compute. reflexivity.
Defined.

End ShapeWitnesses.

(** ** The dictionaries of the aggregator *)

Section Dictionaries.

Context {A B : Type}.
Variable key : A -> string.
Variable entry : A -> B.

Lemma get_own_set_same (o : list (string * B)) (k : string) (v : B) :
  get_own (set o k v) k = Some v.
Proof.
  induction o as [|[k' v'] o IH]; simpl.
  - now rewrite String.eqb_refl.
  - destruct (String.eqb_spec k' k) as [->|Hk]; simpl.
    + now rewrite String.eqb_refl.
    + apply String.eqb_neq in Hk. now rewrite Hk.
Qed.

Lemma get_own_set_other (o : list (string * B)) (k k' : string) (v : B) :
  k <> k' -> get_own (set o k v) k' = get_own o k'.
Proof.
  intros Hkk'. induction o as [|[k0 v0] o IH]; simpl.
  - apply String.eqb_neq in Hkk'. now rewrite Hkk'.
  - destruct (String.eqb_spec k0 k) as [->|Hk]; simpl.
    + apply String.eqb_neq in Hkk'. now rewrite Hkk'.
    + now rewrite IH.
Qed.

Lemma set_In (o : list (string * B)) (k k' : string) (v v' : B) :
  In (k', v') (set o k v) -> (k' = k /\ v' = v) \/ In (k', v') o.
Proof.
  induction o as [|[k0 v0] o IH]; simpl.
  - intros [[= <- <-]|[]]. now left.
  - destruct (k0 =? k); simpl.
    + intros [[= <- <-]|H]; [now left | right; now right].
    + intros [H|H]; [right; now left|].
      destruct (IH H) as [H'|H']; [now left | right; now right].
Qed.

Lemma set_keys (o : list (string * B)) (k k' : string) (v : B) :
  In k' (map fst (set o k v)) -> k' = k \/ In k' (map fst o).
Proof.
  intros H. apply in_map_iff in H as [[k0 v0] [<- H]].
  apply set_In in H as [[-> _]|H]; [now left|].
  right. now apply (in_map fst) in H.
Qed.

Lemma set_NoDup (o : list (string * B)) (k : string) (v : B) :
  NoDup (map fst o) -> NoDup (map fst (set o k v)).
Proof.
  induction o as [|[k0 v0] o IH]; simpl; intros H.
  - constructor; [intros []|constructor].
  - inversion H as [|? ? Hnotin Hnd]; subst.
    destruct (String.eqb_spec k0 k) as [->|Hk]; simpl.
    + now constructor.
    + constructor; [|now apply IH].
      intros Hin. apply set_keys in Hin as [->|Hin]; contradiction.
Qed.

(** Writing the entries of a list into a dictionary, one after the other. *)
Lemma fold_set_NoDup (xs : list A) (o : list (string * B)) :
  NoDup (map fst o) ->
  NoDup (map fst (fold_left (fun o x => set o (key x) (entry x)) xs o)).
Proof.
  revert o; induction xs as [|x xs IH]; intros o H; simpl; [exact H|].
  apply IH. now apply set_NoDup.
Qed.

Lemma fold_set_In (xs : list A) (o : list (string * B)) (k : string) (v : B) :
  In (k, v) (fold_left (fun o x => set o (key x) (entry x)) xs o) ->
  In (k, v) o \/ exists x, In x xs /\ k = key x /\ v = entry x.
Proof.
  revert o; induction xs as [|x xs IH]; intros o; simpl; [now left|].
  intros H. apply IH in H as [H|[y [Hy [-> ->]]]].
  - apply set_In in H as [[-> ->]|H]; [|now left].
    right. exists x. repeat split. now left.
  - right. exists y. repeat split. now right.
Qed.

Lemma fold_set_untouched (xs : list A) (o : list (string * B)) (k : string) :
  (forall x, In x xs -> key x <> k) ->
  get_own (fold_left (fun o x => set o (key x) (entry x)) xs o) k
    = get_own o k.
Proof.
  revert o; induction xs as [|x xs IH]; intros o H; simpl; [reflexivity|].
  rewrite IH by (intros y Hy; apply H; now right).
  apply get_own_set_other. apply H. now left.
Qed.

Lemma fold_set_last (before after : list A) (x : A) (o : list (string * B)) :
  (forall y, In y after -> key y <> key x) ->
  get_own
    (fold_left (fun o x => set o (key x) (entry x)) (before ++ x :: after) o)
    (key x)
    = Some (entry x).
Proof.
  intros H. rewrite fold_left_app. simpl.
  rewrite fold_set_untouched by exact H. apply get_own_set_same.
Qed.

Lemma fold_set_covers (xs : list A) (o : list (string * B)) (x : A) :
  In x xs ->
  exists y,
    In y xs /\ key y = key x /\
    get_own (fold_left (fun o x => set o (key x) (entry x)) xs o) (key x)
      = Some (entry y).
Proof.
  revert o x; induction xs as [|z xs IH]; intros o x; simpl; [intros []|].
  intros Hin.
  destruct (existsb (fun y => key y =? key x) xs) eqn:E.
  - apply existsb_exists in E as [y [Hy Hk]]. apply String.eqb_eq in Hk.
    destruct (IH (set o (key z) (entry z)) y Hy) as [y' [Hy' [Hk' Hget]]].
    exists y'. rewrite <- Hk. repeat split; [now right | congruence | exact Hget].
  - assert (Hnone : forall y, In y xs -> key y <> key x).
    { intros y Hy Hk.
      assert (existsb (fun y => key y =? key x) xs = true); [|congruence].
      apply existsb_exists. exists y. split; [exact Hy|].
      now apply String.eqb_eq. }
    destruct Hin as [->|Hin]; [|now apply Hnone in Hin].
    exists x. repeat split; [now left|].
    rewrite fold_set_untouched by exact Hnone. apply get_own_set_same.
Qed.

End Dictionaries.

Section Aggregator.

Import Client GitlabImporter.

Lemma users_of_fold (issues : list GITLAB_ISSUE.t) (importData : ImportResult.t) :
  ImportResult.users (fold_left add_issue issues importData)
    = fold_left
        (fun users assignee =>
           set users (to_property_key (VNum (Assignee.id assignee)))
             {| name := Assignee.name assignee;
                avatarUrl := Assignee.avatar_url assignee |})
        (all_assignees issues) (ImportResult.users importData).
Proof.
  revert importData; induction issues as [|issue issues IH]; intros importData.
  - reflexivity.
  - cbn [fold_left]. rewrite IH. unfold all_assignees. cbn [flat_map].
    rewrite fold_left_app. unfold add_issue at 1. cbn [ImportResult.users].
    reflexivity.
Qed.

Lemma labels_of_fold (issues : list GITLAB_ISSUE.t) (importData : ImportResult.t) :
  ImportResult.labels (fold_left add_issue issues importData)
    = fold_left
        (fun labels label =>
           set labels (to_property_key label) {| label_name := label |})
        (all_labels issues) (ImportResult.labels importData).
Proof.
  revert importData; induction issues as [|issue issues IH]; intros importData.
  - reflexivity.
  - cbn [fold_left]. rewrite IH. unfold all_labels. cbn [flat_map].
    rewrite fold_left_app. unfold add_issue at 1. cbn [ImportResult.labels].
    reflexivity.
Qed.

(** The user dictionary is keyed by the decimal assignee id, and of
    several assignees with one id the one visited last is kept. *)
Theorem users_last_write_wins (issues : list GITLAB_ISSUE.t)
    (before after : list Assignee.t) (assignee : Assignee.t) :
  all_assignees issues = (before ++ assignee :: after)%list ->
  (forall other, In other after -> Assignee.id other <> Assignee.id assignee) ->
  get_own (ImportResult.users (aggregate issues))
    (number_to_string (Assignee.id assignee))
    = Some {| name := Assignee.name assignee;
              avatarUrl := Assignee.avatar_url assignee |}.
Proof.
  intros Hall Hafter. unfold aggregate. rewrite users_of_fold, Hall.
  cbn [ImportResult.users to_property_key].
  apply (fold_set_last (fun a => number_to_string (Assignee.id a))
           (fun a => {| name := Assignee.name a;
                        avatarUrl := Assignee.avatar_url a |})).
  intros other Hother Hkey. apply number_to_string_inj in Hkey.
  now apply (Hafter other Hother).
Qed.

(** The user dictionary has one entry per key, every entry was written
    for an assignee of an issue, and every assignee finds an entry of its
    id. *)
Theorem users_dictionary_invariant (issues : list GITLAB_ISSUE.t) :
  NoDup (map fst (ImportResult.users (aggregate issues))) /\
  Forall
    (fun kr =>
       exists assignee,
         In assignee (all_assignees issues) /\
         fst kr = number_to_string (Assignee.id assignee) /\
         snd kr = {| name := Assignee.name assignee;
                     avatarUrl := Assignee.avatar_url assignee |})
    (ImportResult.users (aggregate issues)) /\
  Forall
    (fun assignee =>
       exists other,
         In other (all_assignees issues) /\
         Assignee.id other = Assignee.id assignee /\
         get_own (ImportResult.users (aggregate issues))
           (number_to_string (Assignee.id assignee))
           = Some {| name := Assignee.name other;
                     avatarUrl := Assignee.avatar_url other |})
    (all_assignees issues).
Proof.
  unfold aggregate. rewrite users_of_fold. cbn [ImportResult.users to_property_key].
  split; [|split].
  - apply fold_set_NoDup. constructor.
  - apply Forall_forall. intros [k r] Hin.
    apply (fold_set_In (fun a => number_to_string (Assignee.id a))
             (fun a => {| name := Assignee.name a;
                          avatarUrl := Assignee.avatar_url a |})) in Hin.
    destruct Hin as [[]|[a [Ha [-> ->]]]]. now exists a.
  - apply Forall_forall. intros a Ha.
    destruct (fold_set_covers (fun a => number_to_string (Assignee.id a))
                (fun a => {| name := Assignee.name a;
                             avatarUrl := Assignee.avatar_url a |})
                (all_assignees issues) [] a Ha) as [b [Hb [Hk Hget]]].
    exists b. apply number_to_string_inj in Hk. now repeat split.
Qed.

(** The label dictionary has one entry per key, every entry holds a
    normalized label of an issue under that label's property key, and
    every normalized label finds an entry under its key. *)
Theorem labels_dictionary_invariant (issues : list GITLAB_ISSUE.t) :
  NoDup (map fst (ImportResult.labels (aggregate issues))) /\
  Forall
    (fun kr =>
       In (label_name (snd kr)) (all_labels issues) /\
       fst kr = to_property_key (label_name (snd kr)))
    (ImportResult.labels (aggregate issues)) /\
  Forall
    (fun label =>
       exists other,
         In other (all_labels issues) /\
         to_property_key other = to_property_key label /\
         get_own (ImportResult.labels (aggregate issues)) (to_property_key label)
           = Some {| label_name := other |})
    (all_labels issues).
Proof.
  unfold aggregate. rewrite labels_of_fold. cbn [ImportResult.labels].
  split; [|split].
  - apply fold_set_NoDup. constructor.
  - apply Forall_forall. intros [k r] Hin.
    apply (fold_set_In to_property_key (fun l => {| label_name := l |})) in Hin.
    destruct Hin as [[]|[l [Hl [-> ->]]]]. now split.
  - apply Forall_forall. intros l Hl.
    destruct (fold_set_covers to_property_key (fun l => {| label_name := l |})
                (all_labels issues) [] l Hl) as [l' [Hl' [Hk Hget]]].
    exists l'. now repeat split.
Qed.

(** The assignee of an imported issue is decided by the first assignee
    alone: it is [undefined] without assignees and for an id outside the
    directory, and the address of the directory otherwise. *)
Theorem assigneeId_of_first_assignee (issue : GITLAB_ISSUE.t) :
  ImportedIssue.assigneeId (imported_issue issue) =
    match GITLAB_ISSUE.assignees issue with
    | [] => VUndefined
    | first :: _ =>
        if (Assignee.id first =? 2)%Z then VStr "floris@niice.nl"
        else if (Assignee.id first =? 20)%Z then VStr "jorn@niice.nl"
        else if (Assignee.id first =? 49)%Z then VStr "ken@niice.nl"
        else if (Assignee.id first =? 57)%Z then VStr "mik@niice.nl"
        else if (Assignee.id first =? 84)%Z then VStr "tim@niice.nl"
        else VUndefined
    end.
Proof.
  cbn [imported_issue ImportedIssue.assigneeId].
  destruct (GITLAB_ISSUE.assignees issue) as [|first rest]; [reflexivity|].
  apply directory_lookup.
Qed.

End Aggregator.

Section AggregatorWitnesses.

Import Client GitlabImporter.

Lemma users_last_write_wins_witness :
  get_own
    (ImportResult.users
       (aggregate [ assigned_to [assignee_named 20 "Jorn"; assignee_named 49 "Ken"];
                    assigned_to [assignee_named 20 "Jorn W."] ]))
    (number_to_string 20)
    = Some {| name := "Jorn W."; avatarUrl := "" |}.
Proof.
  apply (users_last_write_wins
           [ assigned_to [assignee_named 20 "Jorn"; assignee_named 49 "Ken"];
             assigned_to [assignee_named 20 "Jorn W."] ]
           [assignee_named 20 "Jorn"; assignee_named 49 "Ken"] []
           (assignee_named 20 "Jorn W.")).
  - reflexivity.
  - intros other [].
Defined.

End AggregatorWitnesses.

(** ** More on comment bodies *)

Section CommentBodiesShape.

Import Client.

(** Notes without an upload path keep their bodies: the imported bodies
    are the bodies of the notes that are no system notes, in order. *)
Theorem comment_bodies_without_uploads (projectName : string)
    (notes : list Note.t) :
  (forall note, In note notes -> includes "/uploads/" (Note.body note) = false) ->
  map Comment.body (comments_of_notes projectName notes)
    = map Note.body (filter (fun note => negb (Note.system note)) notes).
Proof.
  intros H. unfold comments_of_notes. rewrite map_map. cbn [Comment.body].
  apply map_ext_in. intros note Hin. apply filter_In in Hin as [Hin _].
  apply body_without_upload_unchanged. now apply H.
Qed.

Lemma comment_bodies_without_uploads_witness :
  map Comment.body
    (comments_of_notes "a$&b" [system_note; user_note "see uploads/a.png"])
    = ["see uploads/a.png"].
Proof.
  apply (comment_bodies_without_uploads "a$&b"
           [system_note; user_note "see uploads/a.png"]).
  intros note Hin. simpl in Hin.
  repeat (destruct Hin as [<-|Hin]; [reflexivity|]). destruct Hin.
Defined.

(** The body of a note with an upload path is imported with the first
    such path prefixed by the project's URL and the text around it kept,
    when the project name holds no dollar sign. *)
Theorem first_upload_path_rewritten (projectName : string) (note : Note.t) :
  Note.system note = false ->
  includes "$" projectName = false ->
  includes "/uploads/" (Note.body note) = true ->
  exists before after,
    Note.body note = before ++ "/uploads/" ++ after /\
    includes "/uploads/" (before ++ "/uploads") = false /\
    map Comment.body (comments_of_notes projectName [note])
      = [ before
          ++ ("https://git.niice.nl/niicedigitalmarketing/" ++ projectName
              ++ "/uploads/")
          ++ after ].
Proof.
  intros Hsys Hname Hbody.
  destruct (body_first_upload_rewritten projectName (Note.body note) Hname Hbody)
    as [before [after [Heq [Hfirst Hrep]]]].
  exists before, after. split; [exact Heq|]. split; [exact Hfirst|].
  unfold comments_of_notes. cbn [filter]. rewrite Hsys. cbn [negb map Comment.body].
  fold (uploads_url projectName). now rewrite Hrep.
Qed.

Lemma first_upload_path_rewritten_witness :
  exists before after,
    "see /uploads/1/a.png and /uploads/2/b.png"
      = before ++ "/uploads/" ++ after /\
    includes "/uploads/" (before ++ "/uploads") = false /\
    map Comment.body
      (comments_of_notes "web"
         [user_note "see /uploads/1/a.png and /uploads/2/b.png"])
      = [ before
          ++ ("https://git.niice.nl/niicedigitalmarketing/" ++ "web"
              ++ "/uploads/")
          ++ after ].
Proof.
  apply (first_upload_path_rewritten "web"
           (user_note "see /uploads/1/a.png and /uploads/2/b.png"));
    reflexivity.
Defined.

End CommentBodiesShape.
